(** * mockery-next: a shallow embedding of [lib/mockery.js]

    The library hooks Node's [Module._load] so that tests can register
    mocks, substitutes and allowables for modules obtained through
    [require].  This development embeds the module-level state of
    [lib/mockery.js] as one record, its functions as computations in a
    small state-and-exception monad, and proves the properties the
    specification states about them. *)

From Stdlib Require Import Ascii String.
From stdpp Require Import gmap strings list fin_maps.

Open Scope string_scope.

(** ** JavaScript values *)

(** The values that flow through the library unchanged: mock objects,
    module exports, option values and flags.  Objects are opaque
    references; numbers are restricted to integers. *)
Inductive JsVal :=
  | VUndefined
  | VNull
  | VBool (b : bool)
  | VNum (n : Z)
  | VStr (s : string)
  | VObj (ref : nat).

Global Instance JsVal_eq_dec : EqDecision JsVal.
Proof. solve_decision. Defined.

(** ToBoolean. *)
Definition truthy (v : JsVal) : bool :=
  match v with
  | VUndefined | VNull => false
  | VBool b => b
  | VNum n => negb (n =? 0)%Z
  | VStr s => negb (String.eqb s "")
  | VObj _ => true
  end.

(** Values that can be thrown: an [Error] built by the library (message
    and optional [code] property), the runtime's own TypeError and
    RangeError, and whatever the host resolver or loader throws. *)
Inductive Exn :=
  | Error (message : string) (code : option string)
  | TypeError
  | RangeError
  | HostThrown (v : JsVal).

Inductive Outcome (A : Type) :=
  | Return (a : A)
  | Throw (e : Exn).
Arguments Return {A} a.
Arguments Throw {A} e.

(** A plain object used as a dictionary: own properties only. *)
Abbreviation Dict := (gmap string JsVal).

(** Property read [o.key]: [undefined] when the property is absent. *)
Definition getProp (o : Dict) (key : string) : JsVal :=
  default VUndefined (o !! key).

(** A Node [Module] object, as far as the library looks at it. *)
Record ModuleObj := { mod_id : string; mod_filename : string }.

Global Instance ModuleObj_eq_dec : EqDecision ModuleObj.
Proof. solve_decision. Defined.

(** The [parent] argument of [Module._load]: a module or null. *)
Abbreviation Parent := (option ModuleObj).

(** What [createInstance(parentModule)] closes over. *)
Record Mockery := { parentModule : ModuleObj }.

(** A function that can sit in [Module._load]: one of the host's
    loaders, or the [hookedLoader] closure of an instance. *)
Inductive LoadFn :=
  | HostFn (fn : nat)
  | HookedFn (owner : Mockery).

(** Entry of [registeredSubstitutes]: [{name, parent}] plus the [module]
    property written by the hooked loader. *)
Record Substitute := {
  subst_name : option string;
  subst_parent : ModuleObj;
  subst_module : option JsVal
}.

(** Entry of [registeredAllowables]: [{unhook, paths}]. *)
Record Allowable := {
  allow_unhook : bool;
  allow_paths : list string
}.

(** Observable effects, in the order they happen: a [console.warn] and
    an invocation of the saved original loader. *)
Inductive Event :=
  | ConsoleWarn (msg : string)
  | OriginalLoaderCall (f : LoadFn) (request : string) (parent : Parent)
      (isMain : JsVal).

(** ** The state *)

(** The module-level variables of [mockery.js] (lines 37-48 and 379),
    the two host globals [m._cache] and [m._load], and the trace of
    effects.  A variable that can hold null is an [option].  The cache
    saved by [enable] is referenced by [originalCache] alone until
    [disable] puts it back, so [originalCache] holds its content. *)
Record World := {
  registeredMocks : Dict;
  registeredSubstitutes : gmap string Substitute;
  registeredAllowables : gmap string Allowable;
  originalLoader : option LoadFn;
  originalCache : option Dict;
  options : Dict;
  mockeryCache : gmap string Mockery;
  m_cache : option Dict;
  m_load : LoadFn;
  trace : list Event
}.

Definition set_registeredMocks (f : Dict → Dict) (w : World) : World :=
  {| registeredMocks := f (registeredMocks w);
     registeredSubstitutes := registeredSubstitutes w;
     registeredAllowables := registeredAllowables w;
     originalLoader := originalLoader w;
     originalCache := originalCache w;
     options := options w;
     mockeryCache := mockeryCache w;
     m_cache := m_cache w;
     m_load := m_load w;
     trace := trace w |}.

Definition set_registeredSubstitutes
    (f : gmap string Substitute → gmap string Substitute) (w : World) : World :=
  {| registeredMocks := registeredMocks w;
     registeredSubstitutes := f (registeredSubstitutes w);
     registeredAllowables := registeredAllowables w;
     originalLoader := originalLoader w;
     originalCache := originalCache w;
     options := options w;
     mockeryCache := mockeryCache w;
     m_cache := m_cache w;
     m_load := m_load w;
     trace := trace w |}.

Definition set_registeredAllowables
    (f : gmap string Allowable → gmap string Allowable) (w : World) : World :=
  {| registeredMocks := registeredMocks w;
     registeredSubstitutes := registeredSubstitutes w;
     registeredAllowables := f (registeredAllowables w);
     originalLoader := originalLoader w;
     originalCache := originalCache w;
     options := options w;
     mockeryCache := mockeryCache w;
     m_cache := m_cache w;
     m_load := m_load w;
     trace := trace w |}.

Definition set_originalLoader (l : option LoadFn) (w : World) : World :=
  {| registeredMocks := registeredMocks w;
     registeredSubstitutes := registeredSubstitutes w;
     registeredAllowables := registeredAllowables w;
     originalLoader := l;
     originalCache := originalCache w;
     options := options w;
     mockeryCache := mockeryCache w;
     m_cache := m_cache w;
     m_load := m_load w;
     trace := trace w |}.

Definition set_originalCache (c : option Dict) (w : World) : World :=
  {| registeredMocks := registeredMocks w;
     registeredSubstitutes := registeredSubstitutes w;
     registeredAllowables := registeredAllowables w;
     originalLoader := originalLoader w;
     originalCache := c;
     options := options w;
     mockeryCache := mockeryCache w;
     m_cache := m_cache w;
     m_load := m_load w;
     trace := trace w |}.

Definition set_options (f : Dict → Dict) (w : World) : World :=
  {| registeredMocks := registeredMocks w;
     registeredSubstitutes := registeredSubstitutes w;
     registeredAllowables := registeredAllowables w;
     originalLoader := originalLoader w;
     originalCache := originalCache w;
     options := f (options w);
     mockeryCache := mockeryCache w;
     m_cache := m_cache w;
     m_load := m_load w;
     trace := trace w |}.

Definition set_mockeryCache
    (f : gmap string Mockery → gmap string Mockery) (w : World) : World :=
  {| registeredMocks := registeredMocks w;
     registeredSubstitutes := registeredSubstitutes w;
     registeredAllowables := registeredAllowables w;
     originalLoader := originalLoader w;
     originalCache := originalCache w;
     options := options w;
     mockeryCache := f (mockeryCache w);
     m_cache := m_cache w;
     m_load := m_load w;
     trace := trace w |}.

Definition set_m_cache (c : option Dict) (w : World) : World :=
  {| registeredMocks := registeredMocks w;
     registeredSubstitutes := registeredSubstitutes w;
     registeredAllowables := registeredAllowables w;
     originalLoader := originalLoader w;
     originalCache := originalCache w;
     options := options w;
     mockeryCache := mockeryCache w;
     m_cache := c;
     m_load := m_load w;
     trace := trace w |}.

Definition set_m_load (l : LoadFn) (w : World) : World :=
  {| registeredMocks := registeredMocks w;
     registeredSubstitutes := registeredSubstitutes w;
     registeredAllowables := registeredAllowables w;
     originalLoader := originalLoader w;
     originalCache := originalCache w;
     options := options w;
     mockeryCache := mockeryCache w;
     m_cache := m_cache w;
     m_load := l;
     trace := trace w |}.

Definition emit (e : Event) (w : World) : World :=
  {| registeredMocks := registeredMocks w;
     registeredSubstitutes := registeredSubstitutes w;
     registeredAllowables := registeredAllowables w;
     originalLoader := originalLoader w;
     originalCache := originalCache w;
     options := options w;
     mockeryCache := mockeryCache w;
     m_cache := m_cache w;
     m_load := m_load w;
     trace := trace w ++ [e] |}.

(** The state right after [mockery.js] has been evaluated: every
    registry is [blank()], nothing is saved, [options] is [blank()]. *)
Definition initialWorld (cache : option Dict) (load : LoadFn) : World :=
  {| registeredMocks := ∅;
     registeredSubstitutes := ∅;
     registeredAllowables := ∅;
     originalLoader := None;
     originalCache := None;
     options := ∅;
     mockeryCache := ∅;
     m_cache := cache;
     m_load := load;
     trace := [] |}.

(** ** Computations *)

(** A JavaScript function body: it reads and writes the state and either
    returns or throws; what was written before a throw stays written. *)
Definition M (A : Type) : Type := World → Outcome A * World.

Global Instance M_ret : MRet M := λ A a w, (Return a, w).

Global Instance M_bind : MBind M := λ A B k c w,
  match c w with
  | (Return a, w') => k a w'
  | (Throw e, w') => (Throw e, w')
  end.

Definition throw {A} (e : Exn) : M A := λ w, (Throw e, w).
Definition gets {A} (f : World → A) : M A := λ w, (Return (f w), w).
Definition modify (f : World → World) : M unit := λ w, (Return tt, f w).
Definition when (b : bool) (c : M unit) : M unit := if b then c else mret tt.
Definition liftOutcome {A} (o : Outcome A) : M A := λ w, (o, w).

(** [console.warn(msg)]. *)
Definition console_warn (msg : string) : M unit := modify (emit (ConsoleWarn msg)).

(** [xs.forEach(f)]: stops at the first throw. *)
Fixpoint forEach {A} (xs : list A) (f : A → M unit) : M unit :=
  match xs with
  | [] => mret tt
  | x :: rest => f x;; forEach rest f
  end.

(** ** Helpers of [mockery.js] *)

(** [matchNativeModuleId = /\.node$/]: [test(s)] holds when [s] ends in
    [".node"]. *)
Fixpoint matchNativeModuleId (s : string) : bool :=
  if String.eqb s ".node" then true
  else match s with
       | EmptyString => false
       | String _ rest => matchNativeModuleId rest
       end.

(** [path.indexOf('/') !== -1]. *)
Fixpoint containsSlash (s : string) : bool :=
  match s with
  | EmptyString => false
  | String c rest => Ascii.eqb c "/"%char || containsSlash rest
  end.

(** [createModuleNotFoundError(request)], lines 62-66. *)
Definition createModuleNotFoundError (request : string) : Exn :=
  Error ("Cannot find module '" ++ request ++ "'") (Some "MODULE_NOT_FOUND").

(** [defaultOptions], lines 43-47. *)
Definition defaultOptions : Dict :=
  {[ "useCleanCache" := VBool false;
     "warnOnReplace" := VBool true;
     "warnOnUnregistered" := VBool true ]}.

(** [Object.keys(src).forEach(key => dst[key] = src[key])]. *)
Definition assignKeys (dst src : Dict) : Dict :=
  map_fold (λ key v acc, <[key := v]> acc) dst src.

(** [getEffectiveOptions(opts)], lines 74-86.  [opts] is an object or
    missing. *)
Definition getEffectiveOptions (opts : option Dict) : Dict :=
  let options := assignKeys ∅ defaultOptions in
  match opts with
  | Some o => assignKeys options o
  | None => options
  end.

(** One iteration of the loop of [copyNativeModules]: the assignment
    [destination[id] = source[id]] throws when [destination] is null. *)
Definition copyNativeStep (id : string) (v : JsVal)
    (acc : Outcome (option Dict)) : Outcome (option Dict) :=
  match acc with
  | Throw e => Throw e
  | Return destination =>
      if matchNativeModuleId id then
        match destination with
        | Some d => Return (Some (<[id := v]> d))
        | None => Throw TypeError
        end
      else Return destination
  end.

(** [copyNativeModules(destination, source)], lines 181-188.  A [for-in]
    over null runs no iteration.  The destination is updated in place;
    the function returns it. *)
Definition copyNativeModules (destination source : option Dict)
    : Outcome (option Dict) :=
  match source with
  | None => Return destination
  | Some src => map_fold copyNativeStep (Return destination) src
  end.

(** [delete m._cache[p]]: throws when [m._cache] is null. *)
Definition deleteFromCache (p : string) : M unit := λ w,
  match m_cache w with
  | Some c => (Return tt, set_m_cache (Some (delete p c)) w)
  | None => (Throw TypeError, w)
  end.

(** ** Modules under load *)

(** What a host loader does when it is called, as far as the library can
    tell: it looks at the state, writes the module cache, and evaluates
    the module, whose body calls [require], which is a call of whatever
    sits in [m._load] at that moment.  The body goes on with what the
    [require] returned or threw, and ends by returning or throwing. *)
Inductive Body :=
  | BReturn (r : Outcome JsVal)
  | BRead (k : World → Body)
  | BSetCache (c : option Dict) (k : Body)
  | BRequire (request : string) (parent : Parent) (isMain : JsVal)
      (k : Outcome JsVal → Body).

(** Running a body, with [require] standing for [m._load]. *)
Fixpoint runBody (require : string → Parent → JsVal → M JsVal) (b : Body)
    : M JsVal :=
  match b with
  | BReturn r => liftOutcome r
  | BRead k => λ w, runBody require (k w) w
  | BSetCache c k => λ w, runBody require k (set_m_cache c w)
  | BRequire request parent isMain k => λ w,
      let '(r, w') := require request parent isMain w in
      runBody require (k r) w'
  end.

(** A [require] deeper than the call stack allows. *)
Definition stackOverflow (request : string) (parent : Parent) (isMain : JsVal)
    : M JsVal := throw RangeError.

(** A body that never replaces the module cache by null, provided it
    found one. *)
Fixpoint cacheSafe (b : Body) : Prop :=
  match b with
  | BReturn _ => True
  | BRead k => ∀ w, is_Some (m_cache w) → cacheSafe (k w)
  | BSetCache c k => is_Some c ∧ cacheSafe k
  | BRequire _ _ _ k => ∀ r, cacheSafe (k r)
  end.

(** ** The library, over the host's resolver and loaders *)

Section Mockery.

(** [m._resolveFilename(request, parent)]: the canonical filename, or
    the error the resolver throws. *)
Variable resolveFilename : string → Parent → Outcome string.

(** The host's loaders: [hostLoad fn request parent isMain] is what
    loader [fn] does for these arguments.  Every [require] of a module it
    evaluates goes through [m._load], hence through the hooked loader
    while hooked.  Of the state a loader itself writes the module cache
    only; the modules it evaluates do not call the facade. *)
Variable hostLoad : nat → string → Parent → JsVal → Body.

Definition m_resolveFilename (request : string) (parent : Parent) : M string :=
  liftOutcome (resolveFilename request parent).

(** A call of host loader [fn], with [require] for the calls of
    [m._load] made while it runs. *)
Definition runModule (require : string → Parent → JsVal → M JsVal) (fn : nat)
    (request : string) (parent : Parent) (isMain : JsVal) : M JsVal :=
  runBody require (hostLoad fn request parent isMain).

(** [Module._load(request, parent, isMain)]: a call of the function that
    sits in [m._load], the hooked loader or a host loader. *)
Definition requireWith (hooked : string → Parent → JsVal → M JsVal)
    (host : nat → string → Parent → JsVal → M JsVal) (request : string)
    (parent : Parent) (isMain : JsVal) : M JsVal :=
  l ← gets m_load;
  match l with
  | HostFn fn => host fn request parent isMain
  | HookedFn _ => hooked request parent isMain
  end.

Definition setSubstModule (v : JsVal) (s : Substitute) : Substitute :=
  {| subst_name := subst_name s;
     subst_parent := subst_parent s;
     subst_module := Some v |}.

Definition pushPath (p : string) (a : Allowable) : Allowable :=
  {| allow_unhook := allow_unhook a; allow_paths := allow_paths a ++ [p] |}.

(** [hookedLoader(request, parent, isMain)], lines 95-131, together with
    [callHost], a call of a host loader.  The two call each other: the
    original loader evaluates a module whose [require]s come back to
    [m._load].  [fuel] is the depth of nesting the call stack allows: a
    [require] nested deeper throws a RangeError.  It also bounds the
    recursion should [originalLoader] hold a hooked loader, which it does
    in no state the library itself produces (lemma [runScript_hostHooked]
    below).  The theorems hold for every [fuel]. *)
Fixpoint hookedLoader (fuel : nat) (request : string) (parent : Parent)
    (isMain : JsVal) {struct fuel} : M JsVal :=
  let callOriginal (f : LoadFn) (req : string) (par : Parent) : M JsVal :=
    modify (emit (OriginalLoaderCall f req par isMain));;
    match f with
    | HostFn fn =>
        runModule
          match fuel with
          | O => stackOverflow
          | S fuel' => requireWith (hookedLoader fuel') (callHost fuel')
          end
          fn req par isMain
    | HookedFn _ =>
        match fuel with
        | O => throw RangeError
        | S fuel' => hookedLoader fuel' req par isMain
        end
    end in
  orig ← gets originalLoader;
  match orig with
  | None => throw (Error "Loader has not been hooked" None)
  | Some loader =>
      path ← m_resolveFilename request parent;
      mocks ← gets registeredMocks;
      match mocks !! path with
      | Some mock => mret mock
      | None =>
          substs ← gets registeredSubstitutes;
          match substs !! path with
          | Some subst =>
              match subst_name subst with
              | None => throw (createModuleNotFoundError request)
              | Some name =>
                  v ← callOriginal loader name (Some (subst_parent subst));
                  modify (set_registeredSubstitutes
                            (alter (setSubstModule v) path));;
                  mret v
              end
          | None =>
              allows ← gets registeredAllowables;
              match allows !! path with
              | Some allow =>
                  when (allow_unhook allow)
                    (when (containsSlash path
                           && negb (bool_decide (path ∈ allow_paths allow)))
                       (modify (set_registeredAllowables
                                  (alter (pushPath path) path))))
              | None =>
                  opts ← gets options;
                  when (truthy (getProp opts "warnOnUnregistered"))
                    (console_warn
                       ("WARNING: loading non-allowed module: " ++ request))
              end;;
              callOriginal loader request parent
          end
      end
  end
with callHost (fuel : nat) (fn : nat) (request : string) (parent : Parent)
    (isMain : JsVal) {struct fuel} : M JsVal :=
  runModule
    match fuel with
    | O => stackOverflow
    | S fuel' => requireWith (hookedLoader fuel') (callHost fuel')
    end
    fn request parent isMain.

(** [enable(opts)], lines 138-153. *)
Definition enable (self : Mockery) (opts : option Dict) : M unit :=
  orig ← gets originalLoader;
  match orig with
  | Some _ => mret tt
  | None =>
      modify (set_options (λ _, getEffectiveOptions opts));;
      o ← gets options;
      when (truthy (getProp o "useCleanCache"))
        (c ← gets m_cache;
         modify (set_originalCache c);;
         fresh ← liftOutcome (copyNativeModules (Some ∅) c);
         modify (set_m_cache fresh));;
      l ← gets m_load;
      modify (set_originalLoader (Some l));;
      modify (set_m_load (HookedFn self))
  end.

(** [disable()], lines 160-174. *)
Definition disable (self : Mockery) : M unit :=
  orig ← gets originalLoader;
  match orig with
  | None => mret tt
  | Some l =>
      o ← gets options;
      when (truthy (getProp o "useCleanCache"))
        (saved ← gets originalCache;
         c ← gets m_cache;
         merged ← liftOutcome (copyNativeModules saved c);
         modify (set_m_cache merged);;
         modify (set_originalCache None));;
      modify (set_m_load l);;
      modify (set_originalLoader None)
  end.

(** [resetCache()], lines 195-199. *)
Definition resetCache (self : Mockery) : M unit :=
  o ← gets options;
  saved ← gets originalCache;
  when (truthy (getProp o "useCleanCache") && bool_decide (is_Some saved))
    (modify (set_m_cache (Some ∅))).

(** [warnOnReplace(enable)] and [warnOnUnregistered(enable)]. *)
Definition warnOnReplace (self : Mockery) (flag : JsVal) : M unit :=
  modify (set_options <["warnOnReplace" := flag]>).

Definition warnOnUnregistered (self : Mockery) (flag : JsVal) : M unit :=
  modify (set_options <["warnOnUnregistered" := flag]>).

(** [registerMock(mod, mock)], lines 223-229. *)
Definition registerMock (self : Mockery) (modRef : string) (mock : JsVal) : M unit :=
  path ← m_resolveFilename modRef (Some (parentModule self));
  o ← gets options;
  mocks ← gets registeredMocks;
  when (truthy (getProp o "warnOnReplace") && bool_decide (is_Some (mocks !! path)))
    (console_warn ("WARNING: Replacing existing mock for module: " ++ modRef));;
  modify (set_registeredMocks <[path := mock]>).

(** [deregisterMock(mod)], lines 236-241. *)
Definition deregisterMock (self : Mockery) (modRef : string) : M unit :=
  path ← m_resolveFilename modRef (Some (parentModule self));
  mocks ← gets registeredMocks;
  when (bool_decide (is_Some (mocks !! path)))
    (modify (set_registeredMocks (delete path))).

(** [typeof subst !== "string" && subst !== null]. *)
Definition notStringNorNull (subst : JsVal) : bool :=
  match subst with
  | VStr _ | VNull => false
  | _ => true
  end.

(** The [name] property stored for an accepted [subst]. *)
Definition substName (subst : JsVal) : option string :=
  match subst with
  | VStr s => Some s
  | _ => None
  end.

(** [registerSubstitute(mod, subst)], lines 249-261. *)
Definition registerSubstitute (self : Mockery) (modRef : string) (subst : JsVal)
    : M unit :=
  if notStringNorNull subst then
    throw (Error "Substitute must be a string or null" None)
  else
    path ← m_resolveFilename modRef (Some (parentModule self));
    o ← gets options;
    substs ← gets registeredSubstitutes;
    when (truthy (getProp o "warnOnReplace")
          && bool_decide (is_Some (substs !! path)))
      (console_warn
         ("WARNING: Replacing existing substitute for module: " ++ modRef));;
    modify (set_registeredSubstitutes
              <[path := {| subst_name := substName subst;
                           subst_parent := parentModule self;
                           subst_module := None |}]>).

(** [deregisterSubstitute(mod)], lines 268-273. *)
Definition deregisterSubstitute (self : Mockery) (modRef : string) : M unit :=
  path ← m_resolveFilename modRef (Some (parentModule self));
  substs ← gets registeredSubstitutes;
  when (bool_decide (is_Some (substs !! path)))
    (modify (set_registeredSubstitutes (delete path))).

(** [registerAllowable(mod, unhook)], lines 284-293. *)
Definition registerAllowable (self : Mockery) (modRef : string) (unhook : JsVal)
    : M unit :=
  path ← m_resolveFilename modRef (Some (parentModule self));
  if matchNativeModuleId path && truthy unhook then
    throw (Error "Cannot unhook native modules" None)
  else
    modify (set_registeredAllowables
              <[path := {| allow_unhook := truthy unhook; allow_paths := [] |}]>).

(** [registerAllowables(mods, unhook)], lines 300-304. *)
Definition registerAllowables (self : Mockery) (mods : list string)
    (unhook : JsVal) : M unit :=
  forEach mods (λ modRef, registerAllowable self modRef unhook).

(** The eviction loop shared by [deregisterAllowable] and
    [deregisterAll]. *)
Definition evictPaths (allow : Allowable) : M unit :=
  when (allow_unhook allow) (forEach (allow_paths allow) deleteFromCache).

(** [deregisterAllowable(mod)], lines 311-322. *)
Definition deregisterAllowable (self : Mockery) (modRef : string) : M unit :=
  path ← m_resolveFilename modRef (Some (parentModule self));
  allows ← gets registeredAllowables;
  match allows !! path with
  | Some allow =>
      evictPaths allow;;
      modify (set_registeredAllowables (delete path))
  | None => mret tt
  end.

(** [deregisterAllowables(mods)], lines 329-333. *)
Definition deregisterAllowables (self : Mockery) (mods : list string) : M unit :=
  forEach mods (λ modRef, deregisterAllowable self modRef).

(** [deregisterAll()], lines 340-353. *)
Definition deregisterAll (self : Mockery) : M unit :=
  allows ← gets registeredAllowables;
  forEach (map_to_list allows) (λ entry, evictPaths entry.2);;
  modify (set_registeredMocks (λ _, ∅));;
  modify (set_registeredSubstitutes (λ _, ∅));;
  modify (set_registeredAllowables (λ _, ∅)).

(** [createInstance(parentModule)]: the facade is its closure. *)
Definition createInstance (parent : ModuleObj) : Mockery :=
  {| parentModule := parent |}.

(** [exports.init(parentModule)], lines 384-389. *)
Definition init (parent : ModuleObj) : M Mockery :=
  cache ← gets mockeryCache;
  match cache !! mod_id parent with
  | Some mockery => mret mockery
  | None =>
      let mockery := createInstance parent in
      modify (set_mockeryCache <[mod_id parent := mockery]>);;
      mret mockery
  end.


(** [Module._load(request, parent, isMain)] as [require] reaches it:
    whatever function currently sits in [m._load] is called. *)
Definition moduleLoad (fuel : nat) (request : string) (parent : Parent)
    (isMain : JsVal) : M JsVal :=
  l ← gets m_load;
  match l with
  | HostFn fn => callHost fuel fn request parent isMain
  | HookedFn _ => hookedLoader fuel request parent isMain
  end.

(** ** Test scripts *)

(** What a test does between [enable] and [disable]: loads, and any call
    of the facade except [disable]. *)
Inductive Call :=
  | CLoad (request : string) (parent : Parent) (isMain : JsVal)
  | CEnable (self : Mockery) (opts : option Dict)
  | CResetCache (self : Mockery)
  | CWarnOnReplace (self : Mockery) (flag : JsVal)
  | CWarnOnUnregistered (self : Mockery) (flag : JsVal)
  | CRegisterMock (self : Mockery) (modRef : string) (mock : JsVal)
  | CDeregisterMock (self : Mockery) (modRef : string)
  | CRegisterSubstitute (self : Mockery) (modRef : string) (subst : JsVal)
  | CDeregisterSubstitute (self : Mockery) (modRef : string)
  | CRegisterAllowable (self : Mockery) (modRef : string) (unhook : JsVal)
  | CRegisterAllowables (self : Mockery) (mods : list string) (unhook : JsVal)
  | CDeregisterAllowable (self : Mockery) (modRef : string)
  | CDeregisterAllowables (self : Mockery) (mods : list string)
  | CDeregisterAll (self : Mockery).

Definition ignore {A} (c : M A) : M unit := c ≫= λ _, mret tt.

Definition runCall (fuel : nat) (c : Call) : M unit :=
  match c with
  | CLoad request parent isMain => ignore (moduleLoad fuel request parent isMain)
  | CEnable self opts => enable self opts
  | CResetCache self => resetCache self
  | CWarnOnReplace self flag => warnOnReplace self flag
  | CWarnOnUnregistered self flag => warnOnUnregistered self flag
  | CRegisterMock self modRef mock => registerMock self modRef mock
  | CDeregisterMock self modRef => deregisterMock self modRef
  | CRegisterSubstitute self modRef subst => registerSubstitute self modRef subst
  | CDeregisterSubstitute self modRef => deregisterSubstitute self modRef
  | CRegisterAllowable self modRef unhook => registerAllowable self modRef unhook
  | CRegisterAllowables self mods unhook => registerAllowables self mods unhook
  | CDeregisterAllowable self modRef => deregisterAllowable self modRef
  | CDeregisterAllowables self mods => deregisterAllowables self mods
  | CDeregisterAll self => deregisterAll self
  end.

(** The state a script leaves.  A call that throws leaves the state it
    had reached; the script goes on with the next call, as a test that
    catches the error would. *)
Fixpoint runScript (fuel : nat) (script : list Call) (w : World) : World :=
  match script with
  | [] => w
  | c :: rest => runScript fuel rest (runCall fuel c w).2
  end.

(** ** Notions used in the statements *)

(** The cache after [paths.forEach(p => delete cache[p])]. *)
Definition evict (paths : list string) (c : Dict) : Dict :=
  foldl (λ acc p, delete p acc) c paths.

(** The state after the original loader, called for a substitute, has
    returned [v] leaving state [w1]: the hooked loader stores [v] in the
    entry's [module] property. *)
Definition afterSubstituteLoad (path : string) (v : JsVal) (w1 : World)
    : World :=
  set_registeredSubstitutes (alter (setSubstModule v) path) w1.

(** A property of the state that no load disturbs: it survives a write
    of the module cache, an event, a [module] stored in a substitute
    entry and a path recorded in an allowable entry. *)
Definition loadStable (P : World → Prop) : Prop :=
  (∀ c w, P w → P (set_m_cache c w)) ∧
  (∀ e w, P w → P (emit e w)) ∧
  (∀ v path w,
     P w → P (set_registeredSubstitutes (alter (setSubstModule v) path) w)) ∧
  (∀ path w,
     P w → P (set_registeredAllowables (alter (pushPath path) path) w)).

(** The part of the state that only [enable] and [disable] write: the
    saved loader, the saved cache, [m._load] and the [useCleanCache]
    option. *)
Definition sameHook (w w' : World) : Prop :=
  originalLoader w' = originalLoader w ∧
  originalCache w' = originalCache w ∧
  m_load w' = m_load w ∧
  getProp (options w') "useCleanCache" = getProp (options w) "useCleanCache".

Definition keepsHook {A} (c : M A) : Prop := ∀ w, sameHook w (c w).2.

(** The two states of the hook: unhooked with a host loader in
    [m._load], or hooked with a host loader saved. *)
Definition hostHooked (w : World) : Prop :=
  match originalLoader w with
  | None => ∃ fn, m_load w = HostFn fn
  | Some l => ∃ fn, l = HostFn fn
  end.

(** ** Test runs *)

(** A step of a test: a call of a script, or [disable]. *)
Inductive Step :=
  | SCall (c : Call)
  | SDisable (self : Mockery).

Definition runStep (fuel : nat) (s : Step) : M unit :=
  match s with
  | SCall c => runCall fuel c
  | SDisable self => disable self
  end.

(** The state a run leaves; as in [runScript], a step that throws does
    not end the run. *)
Fixpoint runSteps (fuel : nat) (steps : list Step) (w : World) : World :=
  match steps with
  | [] => w
  | s :: rest => runSteps fuel rest (runStep fuel s w).2
  end.

(** A computation keeps a property of the state. *)
Definition preserves {A} (P : World → Prop) (c : M A) : Prop :=
  ∀ w, P w → P (c w).2.

(** What the registry of allowables looks like in every state the
    library produces: the [paths] list of an entry is empty or holds the
    entry's own key, it is empty when [unhook] is unset, and the key of an
    entry with [unhook] set is not a native-module key. *)
Definition allowablesTidy (w : World) : Prop :=
  ∀ k a, registeredAllowables w !! k = Some a →
    (allow_paths a = [] ∨ allow_paths a = [k]) ∧
    (allow_unhook a = false → allow_paths a = []) ∧
    (allow_unhook a = true → matchNativeModuleId k = false).

(** The host's loaders leave a cache object when they find one. *)
Definition hostKeepsCache : Prop :=
  ∀ fn request parent isMain, cacheSafe (hostLoad fn request parent isMain).

(** The hook is in one of two states.  Unhooked: a host loader sits in
    [m._load] and no cache is saved.  Hooked: a host loader is saved, a
    hooked loader sits in [m._load], and a cache is saved exactly when
    [useCleanCache] is in effect.  In both there is a module cache. *)
Definition hookTidy (w : World) : Prop :=
  is_Some (m_cache w) ∧
  match originalLoader w with
  | None => (∃ fn, m_load w = HostFn fn) ∧ originalCache w = None
  | Some l =>
      (∃ fn, l = HostFn fn) ∧ (∃ owner, m_load w = HookedFn owner) ∧
      (is_Some (originalCache w)
       ↔ truthy (getProp (options w) "useCleanCache") = true)
  end.


(** The keys the module references of a list resolve to, for the facade
    that resolves them; references the resolver rejects give none. *)
Definition resolvedPaths (self : Mockery) (mods : list string) : list string :=
  omap (λ modRef,
          match resolveFilename modRef (Some (parentModule self)) with
          | Return path => Some path
          | Throw _ => None
          end) mods.

(** The cache after the eviction loop of [deregisterAll] has gone
    through the entries of the allowable registry. *)
Definition evictAll (entries : list (string * Allowable)) (c : Dict) : Dict :=
  foldl (λ acc entry,
           if allow_unhook entry.2 then evict (allow_paths entry.2) acc else acc)
        c entries.


(** There is a module cache: [m._cache] is not null. *)
Definition hasCache (w : World) : Prop := is_Some (m_cache w).


(** ** Fixtures *)

(** A resolver in the style of Node's: absolute requests name
    themselves, bare ones are found under [node_modules], and
    ["missing"] is not found. *)
Definition demoResolve (request : string) (parent : Parent) : Outcome string :=
  if String.eqb request "missing" then Throw (createModuleNotFoundError request)
  else match request with
       | String "/"%char _ => Return request
       | _ => Return ("/app/node_modules/" ++ request)
       end.

(** A loader in the style of Node's, for modules without dependencies:
    a module found in the cache is returned from it, another one is
    evaluated to a new object and cached under its filename. *)
Definition demoHost (fn : nat) (request : string) (parent : Parent)
    (isMain : JsVal) : Body :=
  BRead (λ w,
    match m_cache w with
    | None => BSetCache None (BReturn (Throw TypeError))
    | Some c =>
        match demoResolve request parent with
        | Throw e => BReturn (Throw e)
        | Return file =>
            match c !! file with
            | Some exports => BReturn (Return exports)
            | None =>
                BSetCache (Some (<[file := VObj (size c)]> c))
                  (BReturn (Return (VObj (size c))))
            end
        end
    end).

(** A loader that evaluates the module anew on every call and caches
    nothing: each call yields an object of its own. *)
Definition freshHost (fn : nat) (request : string) (parent : Parent)
    (isMain : JsVal) : Body :=
  BRead (λ w, BReturn (Return (VObj (length (trace w))))).

Definition testModule : ModuleObj :=
  {| mod_id := "/app/test/a.test.js"; mod_filename := "/app/test/a.test.js" |}.

Definition otherModule : ModuleObj :=
  {| mod_id := "/app/test/b.test.js"; mod_filename := "/app/test/b.test.js" |}.

Definition facadeA : Mockery := createInstance testModule.
Definition facadeB : Mockery := createInstance otherModule.

(** The cache of a running process: one native binding, two scripts. *)
Definition demoCache : Dict :=
  {[ "/app/node_modules/binding.node" := VObj 100;
     "/app/lib/util.js" := VObj 101;
     "/app/test/a.test.js" := VObj 102 ]}.

Definition unhookedWorld : World := initialWorld (Some demoCache) (HostFn 0).

(** Hooked by [facadeA] with the default options, nothing registered. *)
Definition hookedWorld : World :=
  set_m_load (HookedFn facadeA)
    (set_originalLoader (Some (HostFn 0))
       (set_options (λ _, defaultOptions) unhookedWorld)).

(** A mock registered for ["widgets"]. *)
Definition mockWorld : World :=
  set_registeredMocks <["/app/node_modules/widgets" := VObj 7]> hookedWorld.

(** ["widgets"] redirected to ["fake-widgets"], ["gone"] declared absent;
    both registered by [facadeA]. *)
Definition substWorld : World :=
  set_registeredSubstitutes
    (λ _, {[ "/app/node_modules/widgets" :=
               {| subst_name := Some "fake-widgets";
                  subst_parent := testModule;
                  subst_module := None |};
             "/app/node_modules/gone" :=
               {| subst_name := None;
                  subst_parent := testModule;
                  subst_module := None |} ]})
    hookedWorld.

(** ["left-pad"] allowed with [unhook] and loaded once, ["right-pad"]
    allowed without [unhook]; both sit in the module cache. *)
Definition allowWorld : World :=
  set_m_cache
    (Some (<["/app/node_modules/left-pad" := VObj 103]>
             (<["/app/node_modules/right-pad" := VObj 104]> demoCache)))
    (set_registeredAllowables
       (λ _, {[ "/app/node_modules/left-pad" :=
                  {| allow_unhook := true;
                     allow_paths := ["/app/node_modules/left-pad"] |};
                "/app/node_modules/right-pad" :=
                  {| allow_unhook := false; allow_paths := [] |} ]})
       hookedWorld).

(** Not hooked yet, a mock for ["widgets"] already registered. *)
Definition registeredWorld : World :=
  set_registeredMocks <["/app/node_modules/widgets" := VObj 7]> unhookedWorld.

(** A test body: a plain module and a native one are loaded, a mock is
    registered and loaded, the cache is reset, and the plain module is
    loaded again. *)
Definition demoScript : list Call :=
  [ CLoad "left-pad" (Some testModule) (VBool false);
    CLoad "addon.node" (Some testModule) (VBool false);
    CRegisterMock facadeA "widgets" (VObj 7);
    CLoad "widgets" (Some testModule) (VBool false);
    CRegisterAllowable facadeA "left-pad" (VBool true);
    CResetCache facadeA;
    CLoad "left-pad" (Some testModule) (VBool false);
    CLoad "other.node" (Some testModule) (VBool false);
    CDeregisterAllowable facadeA "left-pad" ].

(** A loader that fails on every module. *)
Definition brokenHost (fn : nat) (request : string) (parent : Parent)
    (isMain : JsVal) : Body :=
  BReturn (Throw (HostThrown (VStr "SyntaxError"))).

(** The module ["app"] once it is loaded. *)
Definition appModule : ModuleObj :=
  {| mod_id := "/app/node_modules/app";
     mod_filename := "/app/node_modules/app" |}.

(** A loader for a module with dependencies: ["app"] is cached, then its
    body requires ["widgets"] and ["left-pad"] and exports what
    ["widgets"] gave it; a failing [require] ends the load.  Every other
    module is loaded as by [demoHost]. *)
Definition appHost (fn : nat) (request : string) (parent : Parent)
    (isMain : JsVal) : Body :=
  if String.eqb request "app" then
    BRead (λ w,
      BSetCache (insert "/app/node_modules/app" (VObj 200) <$> m_cache w)
        (BRequire "widgets" (Some appModule) (VBool false) (λ widgets,
           match widgets with
           | Throw e => BReturn (Throw e)
           | Return exports =>
               BRequire "left-pad" (Some appModule) (VBool false) (λ leftPad,
                 match leftPad with
                 | Throw e => BReturn (Throw e)
                 | Return _ => BReturn (Return exports)
                 end)
           end)))
  else demoHost fn request parent isMain.


(** A test run: hook with a clean cache, allow ["left-pad"] with
    [unhook], load it twice and a native module once, unhook, hook
    again. *)
Definition demoSteps : list Step :=
  [ SCall (CEnable facadeA (Some {[ "useCleanCache" := VBool true ]}));
    SCall (CRegisterAllowable facadeA "left-pad" (VBool true));
    SCall (CLoad "left-pad" (Some testModule) (VBool false));
    SCall (CLoad "left-pad" (Some otherModule) (VBool false));
    SCall (CLoad "addon.node" (Some testModule) (VBool false));
    SDisable facadeB;
    SCall (CEnable facadeB None) ].


(** Hooked by [facadeA] with a clean cache. *)
Definition cleanWorld : World :=
  (enable facadeA (Some {[ "useCleanCache" := VBool true ]}) unhookedWorld).2.

(** Another module object with the id of [testModule]. *)
Definition twinModule : ModuleObj :=
  {| mod_id := "/app/test/a.test.js"; mod_filename := "/app/build/a.test.js" |}.


(** A mock for ["widgets"], and ["gadgets"] redirected to ["app"]; both
    registered by [facadeA]. *)
Definition appWorld : World :=
  set_registeredSubstitutes
    (λ _, {[ "/app/node_modules/gadgets" :=
               {| subst_name := Some "app";
                  subst_parent := testModule;
                  subst_module := None |} ]})
    mockWorld.

(** ** Reasoning about computations *)

Arguments getProp : simpl never.
Arguments getEffectiveOptions : simpl never.
Arguments copyNativeModules : simpl never.
Arguments runModule : simpl never.

Ltac unfold_monad :=
  unfold mbind, M_bind, mret, M_ret, gets, modify, throw, when, liftOutcome,
    ignore, console_warn, m_resolveFilename in *.

Ltac run := simpl; unfold_monad; simpl.

Lemma world_eta (w : World) :
  {| registeredMocks := registeredMocks w;
     registeredSubstitutes := registeredSubstitutes w;
     registeredAllowables := registeredAllowables w;
     originalLoader := originalLoader w;
     originalCache := originalCache w;
     options := options w;
     mockeryCache := mockeryCache w;
     m_cache := m_cache w;
     m_load := m_load w;
     trace := trace w |} = w.
Proof. by destruct w. Qed.

(** *** Properties kept by computations *)

Lemma preserves_ret {A} (P : World → Prop) (a : A) : preserves P (mret a).
Proof. by intros w Hw. Qed.

Lemma preserves_throw {A} (P : World → Prop) (e : Exn) :
  preserves P (throw (A := A) e).
Proof. by intros w Hw. Qed.

Lemma preserves_gets {A} (P : World → Prop) (f : World → A) :
  preserves P (gets f).
Proof. by intros w Hw. Qed.

Lemma preserves_liftOutcome {A} (P : World → Prop) (o : Outcome A) :
  preserves P (liftOutcome o).
Proof. by intros w Hw. Qed.

Lemma preserves_bind {A B} (P : World → Prop) (c : M A) (k : A → M B) :
  preserves P c → (∀ a, preserves P (k a)) → preserves P (c ≫= k).
Proof.
  intros Hc Hk w Hw. unfold mbind, M_bind.
  specialize (Hc w Hw). destruct (c w) as [[a|e] w1]; simpl in *.
  - by apply Hk.
  - exact Hc.
Qed.

Lemma preserves_modify (P : World → Prop) (f : World → World) :
  (∀ w, P w → P (f w)) → preserves P (modify f).
Proof. intros Hf w Hw. by apply Hf. Qed.

Lemma preserves_when (P : World → Prop) (b : bool) (c : M unit) :
  preserves P c → preserves P (when b c).
Proof. intros Hc. destruct b; [exact Hc|apply preserves_ret]. Qed.

Lemma preserves_forEach {A} (P : World → Prop) (xs : list A) (f : A → M unit) :
  (∀ x, preserves P (f x)) → preserves P (forEach xs f).
Proof.
  intros Hf. induction xs as [|x xs IH]; simpl.
  - apply preserves_ret.
  - apply preserves_bind; [apply Hf|intros _; exact IH].
Qed.

Lemma preserves_runBody (P : World → Prop)
    (require : string → Parent → JsVal → M JsVal) (b : Body) :
  (∀ c w, P w → P (set_m_cache c w)) →
  (∀ request parent isMain, preserves P (require request parent isMain)) →
  preserves P (runBody require b).
Proof.
  intros Hcache Hreq. induction b as [r|k IH|c k IH|request parent isMain k IH];
    intros w Hw; simpl.
  - done.
  - by apply IH.
  - apply IH. by apply Hcache.
  - specialize (Hreq request parent isMain w Hw).
    destruct (require request parent isMain w) as [r w']. by apply IH.
Qed.

Lemma preserves_requireWith (P : World → Prop)
    (hooked : string → Parent → JsVal → M JsVal)
    (host : nat → string → Parent → JsVal → M JsVal)
    (request : string) (parent : Parent) (isMain : JsVal) :
  preserves P (hooked request parent isMain) →
  (∀ fn, preserves P (host fn request parent isMain)) →
  preserves P (requireWith hooked host request parent isMain).
Proof.
  intros Hhooked Hhost. unfold requireWith.
  apply preserves_bind; [apply preserves_gets|]. by intros [fn|owner].
Qed.

(** *** The native-module pattern *)

Lemma matchNativeModuleId_unfold (s : string) :
  matchNativeModuleId s =
    if String.eqb s ".node" then true
    else match s with
         | EmptyString => false
         | String _ rest => matchNativeModuleId rest
         end.
Proof. by destruct s. Qed.

Lemma matchNativeModuleId_suffix (p : string) :
  matchNativeModuleId (p ++ ".node") = true.
Proof.
  induction p as [|a p IH]; [reflexivity|].
  rewrite matchNativeModuleId_unfold.
  destruct (String.eqb _ _); [done|]. exact IH.
Qed.

Lemma matchNativeModuleId_inv (s : string) :
  matchNativeModuleId s = true → ∃ p, s = p ++ ".node".
Proof.
  induction s as [|a s IH]; rewrite matchNativeModuleId_unfold.
  - discriminate.
  - destruct (String.eqb (String a s) ".node") eqn:E.
    + apply String.eqb_eq in E. intros _. exists "". by rewrite E.
    + intros [p ->]%IH. by exists (String a p).
Qed.

(** *** Copying keys between dictionaries *)

Lemma lookup_assignKeys (dst src : Dict) (k : string) :
  assignKeys dst src !! k =
    match src !! k with Some v => Some v | None => dst !! k end.
Proof.
  unfold assignKeys.
  apply (map_fold_weak_ind (λ r m, r !! k = match m !! k with
                                             | Some v => Some v
                                             | None => dst !! k end)).
  - by rewrite lookup_empty.
  - intros i x m r Hi IH. simpl in *. destruct (decide (i = k)) as [->|Hne].
    + by rewrite !lookup_insert_eq.
    + by rewrite !lookup_insert_ne.
Qed.

Lemma getEffectiveOptions_default : getEffectiveOptions None = defaultOptions.
Proof.
  apply map_eq. intros k. unfold getEffectiveOptions.
  rewrite lookup_assignKeys, lookup_empty. by destruct (defaultOptions !! k).
Qed.

Lemma lookup_getEffectiveOptions (o : Dict) (k : string) :
  getEffectiveOptions (Some o) !! k =
    match o !! k with Some v => Some v | None => defaultOptions !! k end.
Proof.
  unfold getEffectiveOptions. rewrite !lookup_assignKeys, lookup_empty.
  destruct (o !! k); [done|]. by destruct (defaultOptions !! k).
Qed.

(** With an object as destination the copy never throws, and the result
    is the destination overwritten by the native entries of the source. *)
Lemma copyNativeModules_Some (d src : Dict) :
  ∃ r, copyNativeModules (Some d) (Some src) = Return (Some r) ∧
       ∀ k, r !! k = if matchNativeModuleId k
                     then match src !! k with Some v => Some v | None => d !! k end
                     else d !! k.
Proof.
  unfold copyNativeModules.
  apply (map_fold_weak_ind (λ acc m, ∃ r, acc = Return (Some r) ∧
    ∀ k, r !! k = if matchNativeModuleId k
                  then match m !! k with Some v => Some v | None => d !! k end
                  else d !! k)).
  - exists d. split; [done|]. intros k. rewrite lookup_empty.
    by destruct (matchNativeModuleId k).
  - intros i x m acc Hi (r & -> & Hr). simpl.
    destruct (matchNativeModuleId i) eqn:Hn.
    + exists (<[i := x]> r). split; [done|]. intros k.
      destruct (decide (i = k)) as [->|Hne].
      * by rewrite !lookup_insert_eq, Hn.
      * rewrite !lookup_insert_ne by done. apply Hr.
    + exists r. split; [done|]. intros k.
      destruct (decide (i = k)) as [->|Hne].
      * rewrite lookup_insert_eq, Hn. rewrite Hr, Hn. done.
      * rewrite lookup_insert_ne by done. apply Hr.
Qed.

Lemma copyNativeModules_null_source (d : option Dict) :
  copyNativeModules d None = Return d.
Proof. reflexivity. Qed.

(** ** Loads within loads *)

Lemma callHost_unfold (fuel : nat) (fn : nat) (request : string)
    (parent : Parent) (isMain : JsVal) :
  callHost fuel fn request parent isMain =
    runModule
      match fuel with
      | O => stackOverflow
      | S fuel' => requireWith (hookedLoader fuel') (callHost fuel')
      end
      fn request parent isMain.
Proof. by destruct fuel. Qed.

Ltac stable_step Hstable :=
  first
    [ apply preserves_ret | apply preserves_throw | apply preserves_gets
    | apply preserves_liftOutcome
    | apply preserves_when
    | apply preserves_bind; [|intros ?]
    | apply preserves_modify; intros ? ?;
        first [ by apply (proj1 (proj2 Hstable))
              | by apply (proj1 (proj2 (proj2 Hstable)))
              | by apply (proj2 (proj2 (proj2 Hstable))) ]
    | match goal with
      | |- preserves _ (match ?x with _ => _ end) => destruct x
      | |- preserves _ (if ?x then _ else _) => destruct x
      end ].

(** A property no load disturbs is kept by the hooked loader and by the
    host loaders, however the loads nest. *)
Lemma loads_preserve (P : World → Prop) (fuel : nat) :
  loadStable P →
  (∀ request parent isMain,
     preserves P (hookedLoader fuel request parent isMain)) ∧
  (∀ fn request parent isMain,
     preserves P (callHost fuel fn request parent isMain)).
Proof.
  intros Hstable.
  induction fuel as [|fuel [IHhooked IHhost]].
  - assert (Hmod : ∀ fn request parent isMain,
              preserves P (runModule stackOverflow fn request parent isMain)).
    { intros. apply preserves_runBody; [apply Hstable|].
      intros. apply preserves_throw. }
    split; [|exact Hmod].
    intros request parent isMain. simpl.
    repeat (first [apply Hmod | stable_step Hstable]).
  - assert (Hmod : ∀ fn request parent isMain,
              preserves P
                (runModule (requireWith (hookedLoader fuel) (callHost fuel))
                   fn request parent isMain)).
    { intros. apply preserves_runBody; [apply Hstable|].
      intros. apply preserves_requireWith; [apply IHhooked|].
      intros. apply IHhost. }
    split; [|exact Hmod].
    intros request parent isMain. simpl.
    repeat (first [apply Hmod | apply IHhooked | stable_step Hstable]).
Qed.

Lemma hookedLoader_preserves (P : World → Prop) (fuel : nat) (request : string)
    (parent : Parent) (isMain : JsVal) :
  loadStable P → preserves P (hookedLoader fuel request parent isMain).
Proof. intros H. by apply (loads_preserve P fuel H). Qed.

Lemma callHost_preserves (P : World → Prop) (fuel : nat) (fn : nat)
    (request : string) (parent : Parent) (isMain : JsVal) :
  loadStable P → preserves P (callHost fuel fn request parent isMain).
Proof. intros H. by apply (loads_preserve P fuel H). Qed.

(** No load touches the registry of mocks. *)
Lemma loadStable_mocks (mocks : Dict) :
  loadStable (λ w, registeredMocks w = mocks).
Proof. by repeat split. Qed.

(** No load touches what [enable] saved. *)
Lemma loadStable_originalLoader (l : option LoadFn) :
  loadStable (λ w, originalLoader w = l).
Proof. by repeat split. Qed.

(** Loads only add to the trace. *)
Lemma loadStable_trace (t : list Event) :
  loadStable (λ w, ∃ rest, trace w = (t ++ rest)%list).
Proof.
  repeat split; try done.
  intros e w [rest Hrest]. exists (rest ++ [e])%list. simpl.
  by rewrite Hrest, <- app_assoc.
Qed.

(** Loads keep the target and the parent of a substitute entry. *)
Lemma loadStable_substitute (path T : string) (parent : ModuleObj) :
  loadStable (λ w, ∃ subst, registeredSubstitutes w !! path = Some subst ∧
                            subst_name subst = Some T ∧
                            subst_parent subst = parent).
Proof.
  repeat split; try done.
  intros v path' w (subst & Hsub & Hname & Hpar). simpl.
  destruct (decide (path' = path)) as [->|Hne].
  - exists (setSubstModule v subst). by rewrite lookup_alter_eq, Hsub.
  - exists subst. by rewrite lookup_alter_ne.
Qed.

(** ** The hooked loader *)

(** The mock branch of the hooked loader, lines 104-106. *)
Lemma hookedLoader_mock_branch (fuel : nat) (request : string)
    (parent : Parent) (isMain : JsVal) (w : World) (loader : LoadFn)
    (path : string) (V : JsVal) :
  originalLoader w = Some loader →
  resolveFilename request parent = Return path →
  registeredMocks w !! path = Some V →
  hookedLoader fuel request parent isMain w = (Return V, w).
Proof.
  intros Hhook Hres Hmock.
  destruct fuel; run; rewrite Hhook, Hres; simpl; by rewrite Hmock.
Qed.

(** C1.  When the key a request resolves to has a registered mock [V],
    the hooked loader, while hooked, returns exactly [V] and leaves the
    state as it was: in particular the trace gains no call of the
    original loader, so the original module is never evaluated. *)
Theorem hookedLoader_returns_mock (fuel : nat) (request : string)
    (parent : Parent) (isMain : JsVal) (w : World) (loader : LoadFn)
    (path : string) (V : JsVal) :
  originalLoader w = Some loader →
  resolveFilename request parent = Return path →
  registeredMocks w !! path = Some V →
  hookedLoader fuel request parent isMain w = (Return V, w) ∧
  trace (hookedLoader fuel request parent isMain w).2 = trace w.
Proof.
  intros Hhook Hres Hmock.
  by rewrite (hookedLoader_mock_branch _ _ _ _ _ _ _ _ Hhook Hres Hmock).
Qed.

(** C3.  When the key a request resolves to carries a substitute whose
    target is null (and no mock, which would be served first), the hooked
    loader throws the module-not-found error built from the request
    string of the load, and the state is unchanged. *)
Theorem hookedLoader_null_substitute (fuel : nat) (request : string)
    (parent : Parent) (isMain : JsVal) (w : World) (loader : LoadFn)
    (path : string) (subst : Substitute) :
  originalLoader w = Some loader →
  resolveFilename request parent = Return path →
  registeredMocks w !! path = None →
  registeredSubstitutes w !! path = Some subst →
  subst_name subst = None →
  hookedLoader fuel request parent isMain w =
    (Throw (Error ("Cannot find module '" ++ request ++ "'")
                  (Some "MODULE_NOT_FOUND")), w).
Proof.
  intros Hhook Hres Hmock Hsub Hname.
  destruct fuel; run; rewrite Hhook, Hres; simpl;
    by rewrite Hmock, Hsub, Hname.
Qed.

(** The substitute branch of the hooked loader, lines 108-115. *)
Lemma hookedLoader_substitute_branch (fuel : nat) (request : string)
    (parent : Parent) (isMain : JsVal) (w : World) (fn : nat)
    (path : string) (subst : Substitute) (T : string) :
  originalLoader w = Some (HostFn fn) →
  resolveFilename request parent = Return path →
  registeredMocks w !! path = None →
  registeredSubstitutes w !! path = Some subst →
  subst_name subst = Some T →
  let call := OriginalLoaderCall (HostFn fn) T (Some (subst_parent subst)) isMain in
  let res := callHost fuel fn T (Some (subst_parent subst)) isMain (emit call w) in
  hookedLoader fuel request parent isMain w =
    match res.1 with
    | Return v => (Return v, afterSubstituteLoad path v res.2)
    | Throw e => (Throw e, res.2)
    end.
Proof.
  intros Hhook Hres Hmock Hsub Hname call res. subst res call.
  rewrite callHost_unfold.
  destruct fuel; run; rewrite Hhook, Hres; simpl;
    rewrite Hmock, Hsub, Hname; simpl;
    by destruct (runModule _ _ _ _ _ _) as [[v|e] w1].
Qed.

(** C2, as the code has it.  When the key a request resolves to carries
    a substitute with target [T] (and no mock), every load while hooked
    calls the original loader with [T], the module that registered the
    substitute as parent and the [isMain] of the load, and returns or
    throws what that call returns or throws; the call is recorded before
    the loader runs, and what the loader's run, nested loads included,
    did to the state stays.  A returned value is stored in the entry's
    [module] property once the loader is back.  The entry keeps its
    target and parent, the hook and the mocks are as before: the next
    load of the same module meets the same conditions and calls the
    original loader again. *)
Theorem hookedLoader_substitute_delegates (fuel : nat) (request : string)
    (parent : Parent) (isMain : JsVal) (w : World) (fn : nat)
    (path : string) (subst : Substitute) (T : string) :
  originalLoader w = Some (HostFn fn) →
  resolveFilename request parent = Return path →
  registeredMocks w !! path = None →
  registeredSubstitutes w !! path = Some subst →
  subst_name subst = Some T →
  let call := OriginalLoaderCall (HostFn fn) T (Some (subst_parent subst)) isMain in
  let res := callHost fuel fn T (Some (subst_parent subst)) isMain (emit call w) in
  let w' := (hookedLoader fuel request parent isMain w).2 in
  (hookedLoader fuel request parent isMain w).1 = res.1 ∧
  (∃ rest, trace w' = (trace w ++ call :: rest)%list) ∧
  m_cache w' = m_cache res.2 ∧
  originalLoader w' = Some (HostFn fn) ∧
  registeredMocks w' !! path = None ∧
  (∃ subst', registeredSubstitutes w' !! path = Some subst' ∧
             subst_name subst' = Some T ∧
             subst_parent subst' = subst_parent subst) ∧
  (∀ v, res.1 = Return v →
        w' = afterSubstituteLoad path v res.2 ∧
        registeredSubstitutes w' !! path = Some (setSubstModule v subst)) ∧
  (∀ e, res.1 = Throw e → w' = res.2).
Proof.
  intros Hhook Hres Hmock Hsub Hname call res w'.
  pose proof (hookedLoader_substitute_branch fuel request parent isMain w fn
                path subst T Hhook Hres Hmock Hsub Hname) as Hrun.
  cbv zeta in Hrun. fold call in Hrun. fold res in Hrun.
  assert (Htrace : ∃ rest, trace res.2 = (trace w ++ call :: rest)%list).
  { destruct (callHost_preserves _ fuel fn T (Some (subst_parent subst)) isMain
                (loadStable_trace (trace w ++ [call])) (emit call w))
      as [rest Hrest]; [by exists []; rewrite app_nil_r|].
    exists rest. fold res in Hrest. by rewrite Hrest, <- app_assoc. }
  assert (Hhook' : originalLoader res.2 = Some (HostFn fn)).
  { by apply (callHost_preserves _ fuel fn T (Some (subst_parent subst)) isMain
                (loadStable_originalLoader (Some (HostFn fn))) (emit call w)). }
  assert (Hmocks' : registeredMocks res.2 = registeredMocks w).
  { by apply (callHost_preserves _ fuel fn T (Some (subst_parent subst)) isMain
                (loadStable_mocks (registeredMocks w)) (emit call w)). }
  assert (Hentry : ∃ s1, registeredSubstitutes res.2 !! path = Some s1 ∧
                         subst_name s1 = Some T ∧
                         subst_parent s1 = subst_parent subst).
  { apply (callHost_preserves _ fuel fn T (Some (subst_parent subst)) isMain
             (loadStable_substitute path T (subst_parent subst)) (emit call w)).
    by exists subst. }
  destruct Hentry as (s1 & Hs1 & Hname1 & Hpar1).
  assert (Hstored : ∀ v,
            registeredSubstitutes (afterSubstituteLoad path v res.2) !! path
            = Some (setSubstModule v subst)).
  { intros v. unfold afterSubstituteLoad. simpl.
    rewrite lookup_alter_eq, Hs1. simpl. f_equal.
    unfold setSubstModule. by rewrite Hname1, Hpar1, Hname. }
  subst w'. rewrite Hrun. clear Hrun.
  destruct (res.1) as [v|e] eqn:Hr; cbn [fst snd].
  - split; [done|]. split; [exact Htrace|]. split; [done|].
    split; [exact Hhook'|].
    split; [by unfold afterSubstituteLoad; simpl; rewrite Hmocks'|].
    split; [|split].
    + exists (setSubstModule v subst). by rewrite Hstored.
    + intros ? [= <-]. by rewrite Hstored.
    + by intros e.
  - split; [done|]. split; [exact Htrace|]. split; [done|].
    split; [exact Hhook'|]. split; [by rewrite Hmocks'|].
    split; [by exists s1|]. split; [by intros v|by intros ?].
Qed.

(** ** Enabling *)

Lemma copyNativeModules_fresh (c : option Dict) :
  ∃ r, copyNativeModules (Some ∅) c = Return (Some r).
Proof.
  destruct c as [c|].
  - destruct (copyNativeModules_Some ∅ c) as (r & Hr & _). eauto.
  - by exists ∅.
Qed.

(** [enable] never throws, and it leaves the loader hooked. *)
Lemma enable_returns (self : Mockery) (opts : option Dict) (w : World) :
  ∃ w1, enable self opts w = (Return tt, w1) ∧ is_Some (originalLoader w1).
Proof.
  unfold enable. run. destruct (originalLoader w) eqn:Hhook.
  - exists w. by rewrite Hhook.
  - destruct (truthy _); simpl.
    + destruct (copyNativeModules_fresh (m_cache w)) as [r ->]. simpl. eauto.
    + eauto.
Qed.

(** C4.  [enable(opts1)] followed by [enable(opts2)], through the same
    facade or another one, leaves exactly the state [enable(opts1)]
    leaves: the second call returns without touching anything, so the
    options, the saved loader and the saved cache are those of the first
    call (the options computed from [opts1] and the loader found in
    [m._load], when the first call found the loader unhooked). *)
Theorem enable_twice_is_enable_once (a b : Mockery) (opts1 opts2 : option Dict)
    (w : World) :
  ∃ w1, enable a opts1 w = (Return tt, w1) ∧
        enable b opts2 w1 = (Return tt, w1) ∧
        (enable a opts1;; enable b opts2) w = (Return tt, w1) ∧
        match originalLoader w with
        | None => options w1 = getEffectiveOptions opts1 ∧
                  originalLoader w1 = Some (m_load w)
        | Some _ => w1 = w
        end.
Proof.
  destruct (enable_returns a opts1 w) as (w1 & H1 & [l Hl]).
  assert (H2 : enable b opts2 w1 = (Return tt, w1)).
  { unfold enable. run. by rewrite Hl. }
  exists w1. repeat split; [done..| |].
  - unfold mbind, M_bind. by rewrite H1.
  - revert H1. unfold enable. run. destruct (originalLoader w); simpl.
    + by intros [= <-].
    + destruct (truthy _); simpl.
      * destruct (copyNativeModules_fresh (m_cache w)) as [r ->]. simpl.
        by intros [= <-].
      * by intros [= <-].
Qed.

(** ** Registration *)

(** C5.  [registerSubstitute] with a substitute that is neither a string
    nor null throws the usage error and leaves the state as it was,
    whatever the resolver would have said.  With a string or null, and a
    module reference that resolves, it returns and stores the entry
    [{name: subst, parent: parentModule}] at the resolved key; the only
    other change is the replacement warning, when one is due. *)
Theorem registerSubstitute_checks_type (self : Mockery) (modRef : string)
    (subst : JsVal) (w : World) :
  ((∀ s, subst ≠ VStr s) → subst ≠ VNull →
     registerSubstitute self modRef subst w =
       (Throw (Error "Substitute must be a string or null" None), w)) ∧
  (∀ path name,
     (subst = VNull ∧ name = None) ∨ (∃ s, subst = VStr s ∧ name = Some s) →
     resolveFilename modRef (Some (parentModule self)) = Return path →
     registerSubstitute self modRef subst w =
       (Return tt,
        set_registeredSubstitutes
          <[path := {| subst_name := name;
                       subst_parent := parentModule self;
                       subst_module := None |}]>
          (if truthy (getProp (options w) "warnOnReplace")
              && bool_decide (is_Some (registeredSubstitutes w !! path))
           then emit (ConsoleWarn
                        ("WARNING: Replacing existing substitute for module: "
                         ++ modRef)) w
           else w))).
Proof.
  split.
  - intros Hstr Hnull. unfold registerSubstitute.
    destruct subst; try done. by destruct (Hstr s).
  - intros path name Hsubst Hres. unfold registerSubstitute.
    assert (notStringNorNull subst = false ∧ substName subst = name) as [-> ->].
    { destruct Hsubst as [[-> ->]|(s & -> & ->)]; done. }
    run. rewrite Hres. simpl.
    by destruct (truthy _ && bool_decide _).
Qed.

(** C6.  [registerAllowable] with a truthy [unhook] and a module
    reference that resolves to a native-module key throws the usage error
    and leaves the state as it was.  With a falsy [unhook], or a key that
    is not native, it returns and the entry at the key is
    [{unhook: !!unhook, paths: []}], whatever was there before. *)
Theorem registerAllowable_rejects_native_unhook (self : Mockery)
    (modRef : string) (unhook : JsVal) (w : World) (path : string) :
  resolveFilename modRef (Some (parentModule self)) = Return path →
  (truthy unhook = true → matchNativeModuleId path = true →
     registerAllowable self modRef unhook w =
       (Throw (Error "Cannot unhook native modules" None), w)) ∧
  (truthy unhook = false ∨ matchNativeModuleId path = false →
     registerAllowable self modRef unhook w =
       (Return tt,
        set_registeredAllowables
          <[path := {| allow_unhook := truthy unhook; allow_paths := [] |}]> w)).
Proof.
  intros Hres. split.
  - intros Hu Hn. unfold registerAllowable. run. rewrite Hres. simpl.
    by rewrite Hu, Hn.
  - intros Hor. unfold registerAllowable. run. rewrite Hres. simpl.
    destruct Hor as [->| ->]; [by rewrite andb_false_r|done].
Qed.

(** ** Deregistration *)

Lemma lookup_evict (paths : list string) (c : Dict) (k : string) :
  evict paths c !! k = if bool_decide (k ∈ paths) then None else c !! k.
Proof.
  unfold evict. revert c. induction paths as [|p paths IH]; intros c; simpl.
  - done.
  - rewrite IH. destruct (decide (k = p)) as [->|Hne].
    + rewrite lookup_delete_eq. rewrite (bool_decide_eq_true_2 (p ∈ p :: paths)).
      * by destruct (bool_decide _).
      * apply list_elem_of_here.
    + rewrite lookup_delete_ne by done.
      destruct (decide (k ∈ paths)) as [Hin|Hnin].
      * rewrite !bool_decide_eq_true_2; [done| |done]. by apply list_elem_of_further.
      * rewrite !bool_decide_eq_false_2; [done| |done].
        by intros [?|?]%elem_of_cons.
Qed.

Lemma forEach_deleteFromCache (paths : list string) (c : Dict) (w : World) :
  m_cache w = Some c →
  forEach paths deleteFromCache w =
    (Return tt, set_m_cache (Some (evict paths c)) w).
Proof.
  revert c w. induction paths as [|p paths IH]; intros c w Hc; simpl.
  - run. unfold set_m_cache. rewrite <- Hc. by rewrite world_eta.
  - run. unfold deleteFromCache at 1. rewrite Hc.
    rewrite (IH (delete p c)) by done. done.
Qed.

(** C7.  [deregisterAllowable] on a reference that resolves to [path]:
    when the entry at [path] has [unhook] set, every key of its [paths]
    list is deleted from the live module cache and the entry is removed;
    when the entry has [unhook] unset, the entry is removed and the cache
    is untouched; when there is no entry, nothing changes. *)
Theorem deregisterAllowable_evicts_observed_paths (self : Mockery)
    (modRef : string) (w : World) (path : string) :
  resolveFilename modRef (Some (parentModule self)) = Return path →
  (∀ allow c,
     registeredAllowables w !! path = Some allow →
     allow_unhook allow = true →
     m_cache w = Some c →
     deregisterAllowable self modRef w =
       (Return tt,
        set_registeredAllowables (delete path)
          (set_m_cache (Some (evict (allow_paths allow) c)) w)) ∧
     ∀ k, evict (allow_paths allow) c !! k =
            if bool_decide (k ∈ allow_paths allow) then None else c !! k) ∧
  (∀ allow,
     registeredAllowables w !! path = Some allow →
     allow_unhook allow = false →
     deregisterAllowable self modRef w =
       (Return tt, set_registeredAllowables (delete path) w)) ∧
  (registeredAllowables w !! path = None →
     deregisterAllowable self modRef w = (Return tt, w)).
Proof.
  intros Hres. split; [|split].
  - intros allow c Ha Hu Hc. split; [|apply lookup_evict].
    unfold deregisterAllowable. run. rewrite Hres. simpl. rewrite Ha.
    unfold evictPaths, when. rewrite Hu.
    unfold mbind, M_bind. by rewrite (forEach_deleteFromCache _ c).
  - intros allow Ha Hu. unfold deregisterAllowable. run. rewrite Hres. simpl.
    rewrite Ha. unfold evictPaths, when. rewrite Hu. done.
  - intros Ha. unfold deregisterAllowable. run. rewrite Hres. simpl.
    by rewrite Ha.
Qed.


(** ** What stays fixed while hooked *)

Lemma sameHook_refl (w : World) : sameHook w w.
Proof. by repeat split. Qed.

Lemma sameHook_trans (w1 w2 w3 : World) :
  sameHook w1 w2 → sameHook w2 w3 → sameHook w1 w3.
Proof.
  intros (? & ? & ? & ?) (? & ? & ? & ?). repeat split; congruence.
Qed.

Lemma keepsHook_ret {A} (a : A) : keepsHook (mret a).
Proof. intros w. apply sameHook_refl. Qed.

Lemma keepsHook_throw {A} (e : Exn) : keepsHook (throw (A := A) e).
Proof. intros w. apply sameHook_refl. Qed.

Lemma keepsHook_gets {A} (f : World → A) : keepsHook (gets f).
Proof. intros w. apply sameHook_refl. Qed.

Lemma keepsHook_liftOutcome {A} (o : Outcome A) : keepsHook (liftOutcome o).
Proof. intros w. apply sameHook_refl. Qed.

Lemma keepsHook_bind {A B} (c : M A) (k : A → M B) :
  keepsHook c → (∀ a, keepsHook (k a)) → keepsHook (c ≫= k).
Proof.
  intros Hc Hk w. unfold mbind, M_bind.
  specialize (Hc w). destruct (c w) as [[a|e] w1]; simpl in *.
  - eapply sameHook_trans; [exact Hc|apply Hk].
  - exact Hc.
Qed.

Lemma keepsHook_modify (f : World → World) :
  (∀ w, sameHook w (f w)) → keepsHook (modify f).
Proof. intros Hf w. apply Hf. Qed.

Lemma keepsHook_when (b : bool) (c : M unit) :
  keepsHook c → keepsHook (when b c).
Proof. intros Hc. destruct b; [exact Hc|apply keepsHook_ret]. Qed.

Lemma keepsHook_forEach {A} (xs : list A) (f : A → M unit) :
  (∀ x, keepsHook (f x)) → keepsHook (forEach xs f).
Proof.
  intros Hf. induction xs as [|x xs IH]; simpl.
  - apply keepsHook_ret.
  - apply keepsHook_bind; [apply Hf|intros _; exact IH].
Qed.

Lemma keepsHook_console_warn (msg : string) : keepsHook (console_warn msg).
Proof. intros w. by repeat split. Qed.

Lemma keepsHook_deleteFromCache (p : string) : keepsHook (deleteFromCache p).
Proof.
  intros w. unfold deleteFromCache. by destruct (m_cache w); repeat split.
Qed.

(** No load touches the hook. *)
Lemma loadStable_sameHook (w0 : World) : loadStable (sameHook w0).
Proof. split; [|split; [|split]]; intros; assumption. Qed.

Lemma keepsHook_callHost (fuel : nat) (fn : nat) (request : string)
    (parent : Parent) (isMain : JsVal) :
  keepsHook (callHost fuel fn request parent isMain).
Proof.
  intros w. apply (callHost_preserves (sameHook w)).
  - apply loadStable_sameHook.
  - apply sameHook_refl.
Qed.

Lemma keepsHook_m_resolveFilename (request : string) (parent : Parent) :
  keepsHook (m_resolveFilename request parent).
Proof. apply keepsHook_liftOutcome. Qed.

Ltac keeps_step :=
  first
    [ apply keepsHook_ret | apply keepsHook_throw | apply keepsHook_gets
    | apply keepsHook_liftOutcome | apply keepsHook_console_warn
    | apply keepsHook_deleteFromCache | apply keepsHook_callHost
    | apply keepsHook_m_resolveFilename
    | apply keepsHook_when
    | apply keepsHook_forEach; intros ?
    | apply keepsHook_bind; [|intros ?]
    | apply keepsHook_modify; intros ?; by repeat split
    | match goal with
      | |- keepsHook (match ?x with _ => _ end) => destruct x
      | |- keepsHook (if ?x then _ else _) => destruct x
      end ].

Ltac keeps := repeat keeps_step.

Lemma keepsHook_hookedLoader (fuel : nat) (request : string) (parent : Parent)
    (isMain : JsVal) : keepsHook (hookedLoader fuel request parent isMain).
Proof.
  intros w. apply (hookedLoader_preserves (sameHook w)).
  - apply loadStable_sameHook.
  - apply sameHook_refl.
Qed.

Lemma keepsHook_moduleLoad (fuel : nat) (request : string) (parent : Parent)
    (isMain : JsVal) : keepsHook (moduleLoad fuel request parent isMain).
Proof. unfold moduleLoad. keeps. apply keepsHook_hookedLoader. Qed.

Lemma keepsHook_setOption (key : string) (flag : JsVal) :
  key ≠ "useCleanCache" → keepsHook (modify (set_options <[key := flag]>)).
Proof.
  intros Hne. apply keepsHook_modify. intros w. repeat split; simpl.
  unfold getProp. by rewrite lookup_insert_ne.
Qed.

Lemma enable_hooked (self : Mockery) (opts : option Dict) (w : World) :
  is_Some (originalLoader w) → enable self opts w = (Return tt, w).
Proof. intros [l Hl]. unfold enable. run. by rewrite Hl. Qed.

(** No call of a script but [enable] touches the hook. *)
Lemma runCall_keepsHook (fuel : nat) (c : Call) :
  (∀ self opts, c ≠ CEnable self opts) → keepsHook (runCall fuel c).
Proof.
  intros Hc. destruct c; simpl.
  - apply keepsHook_bind; [apply keepsHook_moduleLoad|intros ?; apply keepsHook_ret].
  - by destruct (Hc self opts).
  - unfold resetCache. keeps.
  - by apply keepsHook_setOption.
  - by apply keepsHook_setOption.
  - unfold registerMock. keeps.
  - unfold deregisterMock. keeps.
  - unfold registerSubstitute. keeps.
  - unfold deregisterSubstitute. keeps.
  - unfold registerAllowable. keeps.
  - unfold registerAllowables, registerAllowable. keeps.
  - unfold deregisterAllowable, evictPaths. keeps.
  - unfold deregisterAllowables, deregisterAllowable, evictPaths. keeps.
  - unfold deregisterAll, evictPaths. keeps.
Qed.

(** While hooked, no call of a script touches what [enable] saved. *)
Lemma runCall_sameHook (fuel : nat) (c : Call) (w : World) :
  is_Some (originalLoader w) → sameHook w (runCall fuel c w).2.
Proof.
  intros Hhook. destruct c;
    try (apply runCall_keepsHook; intros ? ?; discriminate).
  simpl. rewrite enable_hooked by done. apply sameHook_refl.
Qed.

Lemma runScript_sameHook (fuel : nat) (script : list Call) (w : World) :
  is_Some (originalLoader w) → sameHook w (runScript fuel script w).
Proof.
  revert w. induction script as [|c script IH]; intros w Hhook; simpl.
  - apply sameHook_refl.
  - pose proof (runCall_sameHook fuel c w Hhook) as Hc.
    eapply sameHook_trans; [exact Hc|]. apply IH.
    destruct Hc as (-> & _). done.
Qed.

(** *** The saved loader is a host loader *)

Lemma hostHooked_initialWorld (cache : option Dict) (fn : nat) :
  hostHooked (initialWorld cache (HostFn fn)).
Proof. by exists fn. Qed.

Lemma hostHooked_sameHook (w w' : World) :
  sameHook w w' → hostHooked w → hostHooked w'.
Proof. intros (Hl & _ & Hm & _). unfold hostHooked. by rewrite Hl, Hm. Qed.

Lemma enable_hostHooked (self : Mockery) (opts : option Dict) (w : World) :
  hostHooked w → hostHooked (enable self opts w).2.
Proof.
  intros Hw. unfold hostHooked in *.
  destruct (originalLoader w) as [l|] eqn:Hl.
  - rewrite enable_hooked by (by rewrite Hl). simpl. by rewrite Hl.
  - destruct Hw as [fn Hfn]. unfold enable. run. rewrite Hl.
    destruct (truthy _); simpl.
    + destruct (copyNativeModules_fresh (m_cache w)) as [r ->]. simpl.
      by exists fn.
    + by exists fn.
Qed.

Lemma disable_hostHooked (self : Mockery) (w : World) :
  hostHooked w → hostHooked (disable self w).2.
Proof.
  intros Hw. unfold hostHooked in *. unfold disable. run.
  destruct (originalLoader w) as [l|] eqn:Hl; simpl; [|by rewrite Hl].
  destruct Hw as [fn ->]. destruct (truthy _); simpl.
  - destruct (copyNativeModules _ _); simpl; [by exists fn|].
    rewrite Hl. by exists fn.
  - by exists fn.
Qed.

Lemma runCall_hostHooked (fuel : nat) (c : Call) (w : World) :
  hostHooked w → hostHooked (runCall fuel c w).2.
Proof.
  intros Hw.
  destruct c; try (eapply hostHooked_sameHook; [|exact Hw];
                   apply runCall_keepsHook; intros ? ?; discriminate).
  by apply enable_hostHooked.
Qed.

Lemma runScript_hostHooked (fuel : nat) (script : list Call) (w : World) :
  hostHooked w → hostHooked (runScript fuel script w).
Proof.
  revert w. induction script as [|c script IH]; intros w Hw; simpl; [done|].
  apply IH. by apply runCall_hostHooked.
Qed.

(** ** The clean cache *)

Lemma getProp_getEffectiveOptions (o : Dict) (key : string) :
  truthy (getProp o key) = true →
  getProp (getEffectiveOptions (Some o)) key = getProp o key.
Proof.
  unfold getProp. rewrite lookup_getEffectiveOptions.
  by destruct (o !! key).
Qed.

(** [enable] with a truthy [useCleanCache], from the unhooked state. *)
Lemma enable_clean_cache (self : Mockery) (o : Dict) (w : World) (c : Dict) :
  originalLoader w = None →
  m_cache w = Some c →
  truthy (getProp o "useCleanCache") = true →
  ∃ w1 fresh,
    enable self (Some o) w = (Return tt, w1) ∧
    originalLoader w1 = Some (m_load w) ∧
    originalCache w1 = Some c ∧
    options w1 = getEffectiveOptions (Some o) ∧
    m_load w1 = HookedFn self ∧
    m_cache w1 = Some fresh ∧
    ∀ k, fresh !! k = if matchNativeModuleId k then c !! k else None.
Proof.
  intros Hhook Hc Ho.
  destruct (copyNativeModules_Some ∅ c) as (fresh & Hcopy & Hfresh).
  unfold enable. run. rewrite Hhook.
  rewrite getProp_getEffectiveOptions, Ho by done. simpl.
  rewrite Hc, Hcopy. simpl.
  eexists _, fresh. repeat split. intros k. rewrite Hfresh, lookup_empty.
  by destruct (matchNativeModuleId k), (c !! k).
Qed.

(** [disable] in a hooked state that saved a cache. *)
Lemma disable_clean_cache (self : Mockery) (w : World) (l : LoadFn) (c0 : Dict) :
  originalLoader w = Some l →
  originalCache w = Some c0 →
  truthy (getProp (options w) "useCleanCache") = true →
  ∃ w3 c3,
    disable self w = (Return tt, w3) ∧
    m_load w3 = l ∧ originalLoader w3 = None ∧ originalCache w3 = None ∧
    m_cache w3 = Some c3 ∧
    ∀ k, c3 !! k =
           if matchNativeModuleId k
           then match m_cache w ≫= (.!! k) with
                | Some v => Some v
                | None => c0 !! k
                end
           else c0 !! k.
Proof.
  intros Hhook Hsaved Ho. unfold disable. run. rewrite Hhook, Ho, Hsaved. simpl.
  destruct (m_cache w) as [live|] eqn:Hlive.
  - destruct (copyNativeModules_Some c0 live) as (c3 & -> & Hc3). simpl.
    eexists _, c3. repeat split. exact Hc3.
  - simpl. eexists _, c0. repeat split. intros k.
    by destruct (matchNativeModuleId k).
Qed.

(** C8.  From the unhooked state with cache [c0]: [enable] with a truthy
    [useCleanCache], then any script of loads and facade calls other
    than [disable], then [disable].  The call of [disable] returns;
    [m._load] is the function it was before [enable]; nothing stays
    saved; and the module cache is [c0] again, except that each
    native-module key present in the live cache at [disable] carries the
    live entry.  Keys that do not match the native pattern are exactly as
    they were before [enable], whatever was loaded in between. *)
Theorem clean_cache_round_trip (fuel : nat) (a b : Mockery) (o : Dict)
    (script : list Call) (w0 : World) (c0 : Dict) :
  originalLoader w0 = None →
  m_cache w0 = Some c0 →
  truthy (getProp o "useCleanCache") = true →
  let w1 := (enable a (Some o) w0).2 in
  let w2 := runScript fuel script w1 in
  let w3 := (disable b w2).2 in
  (disable b w2).1 = Return tt ∧
  m_load w3 = m_load w0 ∧
  originalLoader w3 = None ∧
  originalCache w3 = None ∧
  ∃ c3, m_cache w3 = Some c3 ∧
        ∀ k, c3 !! k =
               if matchNativeModuleId k
               then match m_cache w2 ≫= (.!! k) with
                    | Some v => Some v
                    | None => c0 !! k
                    end
               else c0 !! k.
Proof.
  intros Hhook Hc Ho w1 w2 w3.
  destruct (enable_clean_cache a o w0 c0 Hhook Hc Ho)
    as (w1' & fresh & Hen & Hl1 & Hc1 & Ho1 & _).
  assert (w1 = w1') as Hw1 by (subst w1; by rewrite Hen).
  assert (sameHook w1 w2) as (Hl2 & Hc2 & _ & Ho2).
  { apply runScript_sameHook. rewrite Hw1, Hl1. done. }
  rewrite Hw1 in Hl2, Hc2, Ho2. rewrite Hl1 in Hl2. rewrite Hc1 in Hc2.
  rewrite Ho1, getProp_getEffectiveOptions in Ho2 by done.
  destruct (disable_clean_cache b w2 _ c0 Hl2 Hc2)
    as (w3' & c3 & Hdis & Hl3 & Hor3 & Hoc3 & Hmc3 & Hlook).
  { by rewrite Ho2. }
  subst w3. rewrite Hdis. simpl. repeat split; try done.
  exists c3. split; done.
Qed.

(** ** Facades *)

(** [init] always returns a facade, and keeps it for the caller's id. *)
Lemma init_returns (parent : ModuleObj) (w : World) :
  ∃ mockery w',
    init parent w = (Return mockery, w') ∧
    mockeryCache w' !! mod_id parent = Some mockery ∧
    registeredMocks w' = registeredMocks w ∧
    registeredSubstitutes w' = registeredSubstitutes w ∧
    registeredAllowables w' = registeredAllowables w ∧
    originalLoader w' = originalLoader w ∧
    originalCache w' = originalCache w ∧
    options w' = options w ∧
    m_cache w' = m_cache w ∧
    m_load w' = m_load w ∧
    trace w' = trace w.
Proof.
  unfold init. run. destruct (mockeryCache w !! mod_id parent) as [m|] eqn:Hm.
  - exists m, w. by repeat split.
  - eexists _, _. split; [done|]. simpl. by rewrite lookup_insert_eq.
Qed.

(** Acquiring a facade twice for the same caller gives the same one. *)
Lemma init_memoized (parent : ModuleObj) (w : World) :
  ∃ mockery w', init parent w = (Return mockery, w') ∧
                init parent w' = (Return mockery, w').
Proof.
  destruct (init_returns parent w) as (m & w' & Hinit & Hm & _).
  exists m, w'. split; [done|]. unfold init. run. by rewrite Hm.
Qed.

Lemma evictPaths_returns (allow : Allowable) (w : World) :
  is_Some (m_cache w) →
  ∃ c', evictPaths allow w = (Return tt, set_m_cache (Some c') w).
Proof.
  intros [c Hc]. unfold evictPaths, when. destruct (allow_unhook allow).
  - rewrite (forEach_deleteFromCache _ c) by done. eauto.
  - exists c. unfold mret, M_ret, set_m_cache. rewrite <- Hc. by rewrite world_eta.
Qed.

Lemma forEach_evictPaths (entries : list (string * Allowable)) (w : World) :
  is_Some (m_cache w) →
  ∃ c', forEach entries (λ entry, evictPaths entry.2) w
          = (Return tt, set_m_cache (Some c') w).
Proof.
  revert w. induction entries as [|e entries IH]; intros w Hc; simpl.
  - destruct Hc as [c Hc]. exists c.
    unfold mret, M_ret, set_m_cache. rewrite <- Hc. by rewrite world_eta.
  - destruct (evictPaths_returns e.2 w Hc) as [c1 H1].
    unfold mbind, M_bind. rewrite H1.
    destruct (IH (set_m_cache (Some c1) w)) as [c2 H2]; [done|].
    rewrite H2. by exists c2.
Qed.

(** With a live cache, [deregisterAll] returns and empties the three
    registries; of the rest it only writes the module cache. *)
Lemma deregisterAll_clears (self : Mockery) (w : World) :
  is_Some (m_cache w) →
  ∃ c',
    deregisterAll self w =
      (Return tt,
       set_registeredAllowables (λ _, ∅)
         (set_registeredSubstitutes (λ _, ∅)
            (set_registeredMocks (λ _, ∅) (set_m_cache (Some c') w)))).
Proof.
  intros Hc. unfold deregisterAll.
  destruct (forEach_evictPaths (map_to_list (registeredAllowables w)) w Hc)
    as [c' Hev].
  exists c'. unfold mbind, M_bind at 1. unfold gets at 1.
  unfold mbind, M_bind at 1. rewrite Hev. done.
Qed.

(** C9.  Two facades obtained from [init], for any two calling modules,
    work on the same registries and the same hook.  A mock registered
    through [A] sits in the one mock registry; after [enable] through
    [B] the loader is hooked for [A] as well (its own [enable] changes
    nothing), a load of a request that resolves to the mock's key returns
    the mock, and [deregisterAll] through [B] removes it. *)
Theorem facades_share_registries (fuel : nat) (pa pb : ModuleObj)
    (A B : Mockery) (wa wb w : World) (modRef request : string)
    (parent : Parent) (isMain mock : JsVal) (opts opts' : option Dict)
    (path : string) :
  init pa w = (Return A, wa) →
  init pb wa = (Return B, wb) →
  resolveFilename modRef (Some (parentModule A)) = Return path →
  resolveFilename request parent = Return path →
  is_Some (m_cache w) →
  let w1 := (registerMock A modRef mock wb).2 in
  let w2 := (enable B opts w1).2 in
  let w3 := (deregisterAll B w2).2 in
  registeredMocks w1 !! path = Some mock ∧
  enable A opts' w2 = (Return tt, w2) ∧
  hookedLoader fuel request parent isMain w2 = (Return mock, w2) ∧
  (deregisterAll B w2).1 = Return tt ∧
  registeredMocks w3 = ∅ ∧
  registeredSubstitutes w3 = ∅ ∧
  registeredAllowables w3 = ∅.
Proof.
  intros Ha Hb HresA Hres Hc w1 w2 w3.
  destruct (init_returns pa w) as (A' & wa' & Ha' & _ & _ & _ & _ & _ & _ & _ & Hca & _).
  rewrite Ha in Ha'. injection Ha' as <- <-.
  destruct (init_returns pb wa) as (B' & wb' & Hb' & _ & _ & _ & _ & _ & _ & _ & Hcb & _).
  rewrite Hb in Hb'. injection Hb' as <- <-.
  assert (Hw1 : registeredMocks w1 !! path = Some mock ∧ m_cache w1 = m_cache w).
  { subst w1. unfold registerMock. run. rewrite HresA. simpl.
    destruct (truthy _ && bool_decide _); simpl;
      by rewrite lookup_insert_eq, Hcb, Hca. }
  destruct Hw1 as [Hmock Hc1].
  destruct (enable_returns B opts w1) as (w2' & Hen & Hhook).
  assert (w2 = w2') as Hw2 by (subst w2; by rewrite Hen).
  assert (Hw2' : registeredMocks w2 = registeredMocks w1 ∧ is_Some (m_cache w2)).
  { subst w2. clear Hen Hhook Hw2. unfold enable. run.
    destruct (originalLoader w1); simpl.
    - by rewrite Hc1.
    - destruct (truthy _); simpl.
      + destruct (copyNativeModules_fresh (m_cache w1)) as [r ->]. by simpl.
      + by rewrite Hc1. }
  destruct Hw2' as [Hm2 Hc2].
  rewrite <- Hw2 in Hhook.
  split; [done|]. split; [by apply enable_hooked|].
  split.
  { destruct Hhook as [l Hl].
    apply (hookedLoader_mock_branch fuel request parent isMain w2 l path mock);
      [done|done|]. by rewrite Hm2. }
  destruct (deregisterAll_clears B w2 Hc2) as [c' Hda].
  subst w3. rewrite Hda. by simpl.
Qed.

(** ** Options before [enable] *)

(** C10.  In the state the library starts in, [options] is empty.  As
    long as it is, [registerMock] and [registerSubstitute] emit no
    replacement warning, whether or not the key is registered already:
    the only change is the new entry.  [enable] without options installs
    the defaults, [warnOnReplace] true among them, and from then on
    registering over an existing mock emits the warning. *)
Theorem no_replace_warning_before_enable (self : Mockery) (modRef : string)
    (mock subst : JsVal) (path : string) (w : World) :
  resolveFilename modRef (Some (parentModule self)) = Return path →
  options w = ∅ →
  originalLoader w = None →
  (∀ cache load, options (initialWorld cache load) = ∅) ∧
  registerMock self modRef mock w =
    (Return tt, set_registeredMocks <[path := mock]> w) ∧
  (subst = VNull ∨ (∃ s, subst = VStr s) →
   registerSubstitute self modRef subst w =
     (Return tt,
      set_registeredSubstitutes
        <[path := {| subst_name := substName subst;
                     subst_parent := parentModule self;
                     subst_module := None |}]> w)) ∧
  let w1 := (registerMock self modRef mock w).2 in
  let w2 := (enable self None w1).2 in
  options w2 = defaultOptions ∧
  getProp (options w2) "warnOnReplace" = VBool true ∧
  registerMock self modRef mock w2 =
    (Return tt,
     set_registeredMocks <[path := mock]>
       (emit (ConsoleWarn
                ("WARNING: Replacing existing mock for module: " ++ modRef)) w2)).
Proof.
  intros Hres Hopts Hhook.
  assert (Hreg : registerMock self modRef mock w =
                   (Return tt, set_registeredMocks <[path := mock]> w)).
  { unfold registerMock. run. rewrite Hres. simpl. rewrite Hopts.
    unfold getProp. by rewrite lookup_empty. }
  split; [done|]. split; [exact Hreg|]. split.
  { intros Hsubst. unfold registerSubstitute.
    assert (notStringNorNull subst = false) as ->
      by (destruct Hsubst as [->|[s ->]]; done).
    run. rewrite Hres. simpl. rewrite Hopts.
    unfold getProp. by rewrite lookup_empty. }
  rewrite Hreg. simpl.
  assert (Hen : enable self None (set_registeredMocks <[path := mock]> w) =
    (Return tt,
     set_m_load (HookedFn self)
       (set_originalLoader (Some (m_load w))
          (set_options (λ _, defaultOptions)
             (set_registeredMocks <[path := mock]> w))))).
  { unfold enable. run. rewrite Hhook, getEffectiveOptions_default. done. }
  rewrite Hen. simpl. split; [done|]. split; [done|].
  unfold registerMock. run. rewrite Hres. simpl.
  by rewrite lookup_insert_eq.
Qed.

(** ** Further properties of the helpers *)

(** X1.  The native-module pattern [/\.node$/] accepts exactly the
    strings that end in [".node"]. *)
Theorem matchNativeModuleId_iff_suffix (s : string) :
  matchNativeModuleId s = true ↔ ∃ p, s = p ++ ".node".
Proof.
  split.
  - apply matchNativeModuleId_inv.
  - intros [p ->]. apply matchNativeModuleId_suffix.
Qed.

(** X2.  The effective options are the caller's own properties laid over
    the defaults: a key the caller gives, whatever its value, wins; any
    other key has its default; the three documented options are always
    there. *)
Theorem getEffectiveOptions_merges (opts : option Dict) (key : string) :
  getEffectiveOptions opts !! key =
    match opts ≫= (.!! key) with
    | Some v => Some v
    | None => defaultOptions !! key
    end ∧
  is_Some (getEffectiveOptions opts !! "useCleanCache") ∧
  is_Some (getEffectiveOptions opts !! "warnOnReplace") ∧
  is_Some (getEffectiveOptions opts !! "warnOnUnregistered").
Proof.
  assert (Hlook : ∀ k, getEffectiveOptions opts !! k =
            match opts ≫= (.!! k) with
            | Some v => Some v
            | None => defaultOptions !! k
            end).
  { intros k. destruct opts as [o|]; simpl.
    - apply lookup_getEffectiveOptions.
    - by rewrite getEffectiveOptions_default. }
  split; [apply Hlook|].
  repeat split; rewrite Hlook; by destruct (opts ≫= _).
Qed.

(** X3.  Copying native modules into an object never throws.  The result
    is the destination with the source's native entries written over it;
    entries under other keys, of either cache, play no part.  Copying the
    same source again changes nothing. *)
Theorem copyNativeModules_into_object (d : Dict) (source : option Dict) :
  ∃ r, copyNativeModules (Some d) source = Return (Some r) ∧
       (∀ k, r !! k =
               if matchNativeModuleId k
               then match source ≫= (.!! k) with
                    | Some v => Some v
                    | None => d !! k
                    end
               else d !! k) ∧
       copyNativeModules (Some r) source = Return (Some r).
Proof.
  destruct source as [src|].
  - destruct (copyNativeModules_Some d src) as (r & Hr & Hlook).
    exists r. split; [done|]. split; [exact Hlook|].
    destruct (copyNativeModules_Some r src) as (r' & Hr' & Hlook').
    rewrite Hr'. do 2 f_equal. apply map_eq. intros k.
    rewrite Hlook', Hlook.
    by destruct (matchNativeModuleId k), (src !! k).
  - exists d. repeat split. intros k. by destruct (matchNativeModuleId k).
Qed.

(** ** Further properties of the hooked loader *)

(** X4.  When the resolver throws for the request of a load, the hooked
    loader, while hooked, throws the same value; no registry is
    consulted, nothing is loaded and the state is unchanged. *)
Theorem hookedLoader_resolution_failure (fuel : nat) (request : string)
    (parent : Parent) (isMain : JsVal) (w : World) (loader : LoadFn) (e : Exn) :
  originalLoader w = Some loader →
  resolveFilename request parent = Throw e →
  hookedLoader fuel request parent isMain w = (Throw e, w).
Proof.
  intros Hhook Hres. destruct fuel; run; by rewrite Hhook, Hres.
Qed.

(** The branch of the hooked loader for a key without any registration,
    lines 124-130. *)
Lemma hookedLoader_unregistered_branch (fuel : nat) (request : string)
    (parent : Parent) (isMain : JsVal) (w : World) (fn : nat) (path : string) :
  originalLoader w = Some (HostFn fn) →
  resolveFilename request parent = Return path →
  registeredMocks w !! path = None →
  registeredSubstitutes w !! path = None →
  registeredAllowables w !! path = None →
  hookedLoader fuel request parent isMain w =
    callHost fuel fn request parent isMain
      (emit (OriginalLoaderCall (HostFn fn) request parent isMain)
         (if truthy (getProp (options w) "warnOnUnregistered")
          then emit (ConsoleWarn
                       ("WARNING: loading non-allowed module: " ++ request)) w
          else w)).
Proof.
  intros Hhook Hres Hmock Hsub Hallow. rewrite callHost_unfold.
  destruct fuel; run; rewrite Hhook, Hres; simpl;
    rewrite Hmock, Hsub, Hallow;
    destruct (truthy _); simpl;
    by destruct (runModule _ _ _ _ _ _) as [[?|?] ?].
Qed.

(** What a call of a host loader, with the loads nested in it, leaves
    alone: the events already written, the mocks and the saved loader. *)
Lemma callHost_frame (fuel : nat) (fn : nat) (request : string)
    (parent : Parent) (isMain : JsVal) (w : World) :
  let w' := (callHost fuel fn request parent isMain w).2 in
  (∃ rest, trace w' = (trace w ++ rest)%list) ∧
  registeredMocks w' = registeredMocks w ∧
  originalLoader w' = originalLoader w.
Proof.
  intros w'. subst w'. split; [|split].
  - apply (callHost_preserves _ fuel fn request parent isMain
             (loadStable_trace (trace w)) w).
    exists []. by rewrite app_nil_r.
  - by apply (callHost_preserves _ fuel fn request parent isMain
                (loadStable_mocks (registeredMocks w)) w).
  - by apply (callHost_preserves _ fuel fn request parent isMain
                (loadStable_originalLoader (originalLoader w)) w).
Qed.



(** X7.  When the call of the original loader for the target of a
    substitute throws, the load throws the same value and stops there:
    the state is the one the loader's run left, and this load stores
    nothing in the entry's [module] property. *)
Theorem hookedLoader_substitute_loader_throws (fuel : nat) (request : string)
    (parent : Parent) (isMain : JsVal) (w w1 : World) (fn : nat)
    (path : string) (subst : Substitute) (T : string) (e : Exn) :
  originalLoader w = Some (HostFn fn) →
  resolveFilename request parent = Return path →
  registeredMocks w !! path = None →
  registeredSubstitutes w !! path = Some subst →
  subst_name subst = Some T →
  let call := OriginalLoaderCall (HostFn fn) T (Some (subst_parent subst)) isMain in
  callHost fuel fn T (Some (subst_parent subst)) isMain (emit call w)
    = (Throw e, w1) →
  hookedLoader fuel request parent isMain w = (Throw e, w1).
Proof.
  intros Hhook Hres Hmock Hsub Hname call Hhost.
  rewrite (hookedLoader_substitute_branch fuel request parent isMain w fn path
             subst T) by done.
  cbv zeta. fold call. by rewrite Hhost.
Qed.

(** ** Further properties of [enable], [disable] and [resetCache] *)

(** X8.  [enable] with a truthy [useCleanCache], from the unhooked state:
    the cache found in [m._cache] is saved, and the cache installed in
    its place holds the native entries of the saved one and nothing
    else.  The registries are not touched. *)
Theorem enable_isolates_cache (self : Mockery) (o : Dict) (w : World)
    (c : Dict) :
  originalLoader w = None →
  m_cache w = Some c →
  truthy (getProp o "useCleanCache") = true →
  let w1 := (enable self (Some o) w).2 in
  originalCache w1 = Some c ∧
  (∃ fresh, m_cache w1 = Some fresh ∧
            ∀ k, fresh !! k = if matchNativeModuleId k then c !! k else None) ∧
  registeredMocks w1 = registeredMocks w ∧
  registeredSubstitutes w1 = registeredSubstitutes w ∧
  registeredAllowables w1 = registeredAllowables w.
Proof.
  intros Hhook Hc Ho w1.
  destruct (enable_clean_cache self o w c Hhook Hc Ho)
    as (w1' & fresh & Hen & _ & Hsaved & _ & _ & Hlive & Hlook).
  assert (w1 = w1') as -> by (subst w1; by rewrite Hen).
  split; [done|]. split; [by exists fresh|].
  revert Hen. unfold enable. run. rewrite Hhook.
  rewrite getProp_getEffectiveOptions, Ho by done. simpl.
  destruct (copyNativeModules_fresh (m_cache w)) as [r ->]. simpl.
  by intros [= <-].
Qed.

(** X9.  Without [useCleanCache], [enable] followed by [disable], through
    the same facade or two, puts everything back: [m._load], the cache,
    the registries.  The one thing that stays is [options], which keeps
    the effective options of that [enable] after [disable]. *)
Theorem enable_disable_round_trip (a b : Mockery) (opts : option Dict)
    (w : World) :
  originalLoader w = None →
  truthy (getProp (getEffectiveOptions opts) "useCleanCache") = false →
  (enable a opts;; disable b) w =
    (Return tt, set_options (λ _, getEffectiveOptions opts) w).
Proof.
  intros Hhook Ho. unfold enable, disable. run. rewrite Hhook. simpl.
  rewrite Ho. simpl. rewrite Ho. simpl.
  destruct w. simpl in *. by subst.
Qed.

(** After a [disable] that returns, the loader is unhooked. *)
Lemma disable_returns_unhooked (self : Mockery) (w w' : World) :
  disable self w = (Return tt, w') → originalLoader w' = None.
Proof.
  unfold disable. run. destruct (originalLoader w) as [l|] eqn:Hl; simpl.
  - destruct (truthy _); simpl.
    + destruct (copyNativeModules _ _); simpl; [|done]. by intros [= <-].
    + by intros [= <-].
  - by intros [= <-].
Qed.

(** X10.  [disable] on the unhooked loader changes nothing, and
    [disable] called twice does what [disable] called once does. *)
Theorem disable_twice_is_disable_once (a b : Mockery) (w : World) :
  (disable a;; disable b) w = disable a w ∧
  (originalLoader w = None → disable a w = (Return tt, w)).
Proof.
  assert (Hnoop : ∀ self w0, originalLoader w0 = None →
                             disable self w0 = (Return tt, w0)).
  { intros self w0 H0. unfold disable. run. by rewrite H0. }
  split; [|apply Hnoop].
  unfold mbind, M_bind at 1.
  destruct (disable a w) as [[[]|e] w1] eqn:H1; [|done].
  apply Hnoop. by apply (disable_returns_unhooked a w).
Qed.



(** X12.  A hooked loader kept after [disable] is of no use: called
    then, it throws "Loader has not been hooked" and changes nothing. *)
Theorem hookedLoader_after_disable (fuel : nat) (self : Mockery)
    (w w' : World) (request : string) (parent : Parent) (isMain : JsVal) :
  disable self w = (Return tt, w') →
  hookedLoader fuel request parent isMain w'
    = (Throw (Error "Loader has not been hooked" None), w').
Proof.
  intros Hdis%disable_returns_unhooked.
  destruct fuel; run; by rewrite Hdis.
Qed.

Lemma copyNativeModules_empty_source (d : option Dict) :
  copyNativeModules d (Some ∅) = Return d.
Proof. unfold copyNativeModules. by rewrite map_fold_empty. Qed.

(** X13.  [resetCache] with the clean cache in effect replaces the live
    cache by an empty one, native entries included, and leaves the saved
    cache alone; a [disable] right after it reinstalls the saved cache
    exactly as [enable] found it.  Without [useCleanCache], or with no
    cache saved, [resetCache] does nothing. *)
Theorem resetCache_then_disable (a b : Mockery) (w : World) :
  (∀ l c0,
     originalLoader w = Some l →
     originalCache w = Some c0 →
     truthy (getProp (options w) "useCleanCache") = true →
     resetCache a w = (Return tt, set_m_cache (Some ∅) w) ∧
     (resetCache a;; disable b) w =
       (Return tt,
        set_originalLoader None
          (set_m_load l
             (set_originalCache None (set_m_cache (Some c0) w))))) ∧
  (truthy (getProp (options w) "useCleanCache") = false
   ∨ originalCache w = None →
   resetCache a w = (Return tt, w)).
Proof.
  split.
  - intros l c0 Hhook Hsaved Ho.
    assert (Hreset : resetCache a w = (Return tt, set_m_cache (Some ∅) w)).
    { unfold resetCache. run. by rewrite Ho, Hsaved. }
    split; [exact Hreset|].
    unfold mbind, M_bind at 1. rewrite Hreset.
    unfold disable. run. rewrite Hhook. simpl. rewrite Ho. simpl.
    rewrite Hsaved. simpl.
    by rewrite copyNativeModules_empty_source.
  - intros Hor. unfold resetCache. run.
    destruct Hor as [->| ->]; [done|]. by rewrite andb_false_r.
Qed.

(** ** Further properties of the warning flags *)

(** X14.  [warnOnReplace] and [warnOnUnregistered] act on the next call
    already, through whichever facade they are made.  Registering over an
    existing mock writes the replacement warning exactly when the flag
    just given is truthy.  The load of an unregistered module starts by
    writing its warning exactly when the flag just given is truthy: with
    a truthy flag the trace gains the warning, then the call of the
    original loader; with a falsy flag it gains the call at once; what
    follows comes from the loader's run. *)
Theorem warn_flags_take_effect_immediately (fuel : nat) (a b : Mockery)
    (flag : JsVal) (modRef : string) (mock old : JsVal) (path : string)
    (request : string) (parent : Parent) (isMain : JsVal) (fn : nat)
    (rpath : string) (w : World) :
  resolveFilename modRef (Some (parentModule b)) = Return path →
  registeredMocks w !! path = Some old →
  originalLoader w = Some (HostFn fn) →
  resolveFilename request parent = Return rpath →
  registeredMocks w !! rpath = None →
  registeredSubstitutes w !! rpath = None →
  registeredAllowables w !! rpath = None →
  trace ((warnOnReplace a flag;; registerMock b modRef mock) w).2 =
    (if truthy flag
     then trace w ++ [ConsoleWarn
                        ("WARNING: Replacing existing mock for module: "
                         ++ modRef)]
     else trace w)%list ∧
  ∃ rest,
    trace ((warnOnUnregistered a flag;;
            ignore (hookedLoader fuel request parent isMain)) w).2 =
      (if truthy flag
       then trace w
            ++ ConsoleWarn ("WARNING: loading non-allowed module: " ++ request)
            :: OriginalLoaderCall (HostFn fn) request parent isMain :: rest
       else trace w
            ++ OriginalLoaderCall (HostFn fn) request parent isMain :: rest)%list.
Proof.
  intros Hres Hold Hhook Hrres Hmock Hsub Hallow. split.
  - unfold warnOnReplace, registerMock. run. rewrite Hres. simpl.
    unfold getProp. rewrite lookup_insert_eq. simpl. rewrite Hold. simpl.
    by destruct (truthy flag).
  - unfold warnOnUnregistered, ignore, mbind, M_bind, modify.
    rewrite (hookedLoader_unregistered_branch fuel request parent isMain _ fn
               rpath) by done.
    simpl. unfold getProp. rewrite lookup_insert_eq. simpl.
    match goal with
    | |- context [callHost fuel fn request parent isMain ?w0] =>
        destruct (callHost_frame fuel fn request parent isMain w0)
          as ([rest Hrest] & _ & _);
        destruct (callHost fuel fn request parent isMain w0) as [[v|e] w1]
    end; simpl in *; exists rest; rewrite Hrest;
      destruct (truthy flag); simpl; by rewrite <- !app_assoc.
Qed.

(** X15.  A flag set before [enable] does not survive it: from the
    unhooked state, [enable] computes the options afresh from the
    defaults and its argument, so the state is the one [enable] alone
    would have left. *)
Theorem enable_discards_earlier_flags (a b : Mockery) (flag flag' : JsVal)
    (opts : option Dict) (w : World) :
  originalLoader w = None →
  (warnOnReplace a flag;; warnOnUnregistered a flag';; enable b opts) w
    = enable b opts w.
Proof.
  intros Hhook. unfold warnOnReplace, warnOnUnregistered, enable. run.
  rewrite Hhook. simpl.
  destruct (truthy _); simpl; [|done].
  by destruct (copyNativeModules _ _).
Qed.


(** ** Further properties of registration *)

(** X16.  A mock registered for a key that had none is found at that key
    and at no other, and deregistering it, through any facade and under
    any reference that resolves to the same key, gives back the state
    there was before the registration.  Deregistering a mock that is not
    registered changes nothing. *)
Theorem registerMock_deregisterMock_round_trip (a b : Mockery)
    (modRef modRef' : string) (mock : JsVal) (path : string) (w : World) :
  resolveFilename modRef (Some (parentModule a)) = Return path →
  resolveFilename modRef' (Some (parentModule b)) = Return path →
  registeredMocks w !! path = None →
  registeredMocks (registerMock a modRef mock w).2 !! path = Some mock ∧
  (∀ k, k ≠ path →
        registeredMocks (registerMock a modRef mock w).2 !! k
          = registeredMocks w !! k) ∧
  (registerMock a modRef mock;; deregisterMock b modRef') w = (Return tt, w) ∧
  deregisterMock b modRef' w = (Return tt, w).
Proof.
  intros Hres Hres' Hnone.
  assert (Hreg : registerMock a modRef mock w =
                   (Return tt, set_registeredMocks <[path := mock]> w)).
  { unfold registerMock. run. rewrite Hres. simpl. rewrite Hnone. simpl.
    by rewrite andb_false_r. }
  rewrite Hreg. simpl. split; [by rewrite lookup_insert_eq|].
  split; [by intros k Hk; rewrite lookup_insert_ne|]. split.
  - unfold mbind, M_bind at 1. rewrite Hreg.
    unfold deregisterMock. run. rewrite Hres'. simpl.
    rewrite lookup_insert_eq. simpl.
    unfold set_registeredMocks. simpl.
    rewrite delete_insert_id by done. by rewrite world_eta.
  - unfold deregisterMock. run. rewrite Hres'. simpl. by rewrite Hnone.
Qed.

(** X17.  The same for substitutes: registered for a key that had none,
    a substitute (a name or null) is removed again by
    [deregisterSubstitute] under any reference to the same key, and the
    state is the one before; deregistering what is not registered changes
    nothing. *)
Theorem registerSubstitute_deregisterSubstitute_round_trip (a b : Mockery)
    (modRef modRef' : string) (subst : JsVal) (path : string) (w : World) :
  resolveFilename modRef (Some (parentModule a)) = Return path →
  resolveFilename modRef' (Some (parentModule b)) = Return path →
  registeredSubstitutes w !! path = None →
  notStringNorNull subst = false →
  (registerSubstitute a modRef subst;; deregisterSubstitute b modRef') w
    = (Return tt, w) ∧
  deregisterSubstitute b modRef' w = (Return tt, w).
Proof.
  intros Hres Hres' Hnone Hsubst. split.
  - unfold registerSubstitute, deregisterSubstitute. rewrite Hsubst.
    run. rewrite Hres. simpl. rewrite Hnone. simpl.
    rewrite andb_false_r. simpl. rewrite Hres'. simpl.
    rewrite lookup_insert_eq. simpl.
    unfold set_registeredSubstitutes. simpl.
    rewrite delete_insert_id by done. by rewrite world_eta.
  - unfold deregisterSubstitute. run. rewrite Hres'. simpl. by rewrite Hnone.
Qed.

(** X18.  The same for allowables: an allowable registered for a key
    that had none and deregistered before any load leaves the state as it
    was, the module cache included, also when [unhook] was set.
    Deregistering what is not registered changes nothing. *)
Theorem registerAllowable_deregisterAllowable_round_trip (a b : Mockery)
    (modRef modRef' : string) (unhook : JsVal) (path : string) (w : World) :
  resolveFilename modRef (Some (parentModule a)) = Return path →
  resolveFilename modRef' (Some (parentModule b)) = Return path →
  registeredAllowables w !! path = None →
  truthy unhook = false ∨ matchNativeModuleId path = false →
  (registerAllowable a modRef unhook;; deregisterAllowable b modRef') w
    = (Return tt, w) ∧
  deregisterAllowable b modRef' w = (Return tt, w).
Proof.
  intros Hres Hres' Hnone Hok. split.
  - unfold registerAllowable, deregisterAllowable. run. rewrite Hres. simpl.
    assert (matchNativeModuleId path && truthy unhook = false) as ->.
    { destruct Hok as [->| ->]; [by rewrite andb_false_r|done]. }
    simpl. rewrite Hres'. simpl. rewrite lookup_insert_eq.
    unfold evictPaths, when. simpl.
    destruct (truthy unhook); simpl; unfold mret, M_ret;
      unfold set_registeredAllowables; simpl;
      rewrite delete_insert_id by done; by rewrite world_eta.
  - unfold deregisterAllowable. run. rewrite Hres'. simpl. by rewrite Hnone.
Qed.

(** X19.  Every registration function resolves its module reference
    first: when the resolver throws, the function throws the same value
    and the state is unchanged.  A mock, a substitute or an allowable
    cannot be registered, nor deregistered, for a module the resolver
    does not find.  Only the type check of [registerSubstitute] comes
    before the resolution. *)
Theorem registration_resolution_failure (self : Mockery) (modRef : string)
    (mock subst unhook : JsVal) (e : Exn) (w : World) :
  resolveFilename modRef (Some (parentModule self)) = Throw e →
  registerMock self modRef mock w = (Throw e, w) ∧
  deregisterMock self modRef w = (Throw e, w) ∧
  registerSubstitute self modRef subst w =
    (if notStringNorNull subst
     then Throw (Error "Substitute must be a string or null" None)
     else Throw e, w) ∧
  deregisterSubstitute self modRef w = (Throw e, w) ∧
  registerAllowable self modRef unhook w = (Throw e, w) ∧
  deregisterAllowable self modRef w = (Throw e, w).
Proof.
  intros Hres.
  unfold registerMock, deregisterMock, registerSubstitute,
    deregisterSubstitute, registerAllowable, deregisterAllowable.
  repeat split; try (run; by rewrite Hres).
  destruct (notStringNorNull subst); [done|]. run. by rewrite Hres.
Qed.

Lemma forEach_app_throw {A} (pre post : list A) (x : A) (f : A → M unit)
    (w w1 w2 : World) (e : Exn) :
  forEach pre f w = (Return tt, w1) →
  f x w1 = (Throw e, w2) →
  forEach (pre ++ x :: post) f w = (Throw e, w2).
Proof.
  revert w. induction pre as [|y pre IH]; intros w Hpre Hx; simpl in *.
  - injection Hpre as <-. unfold mbind, M_bind. by rewrite Hx.
  - unfold mbind, M_bind in *. destruct (f y w) as [[[]|e'] w'].
    + by apply IH.
    + done.
Qed.

(** X20.  [registerAllowables] stops at the first module it cannot
    register and does not undo what it did: when the modules before a
    native one were registered and [unhook] is truthy, the call throws
    "Cannot unhook native modules", the state is the one those
    registrations left, and the modules after the native one are not
    looked at. *)
Theorem registerAllowables_fail_fast (self : Mockery)
    (pre post : list string) (bad : string) (unhook : JsVal) (path : string)
    (w w1 : World) :
  registerAllowables self pre unhook w = (Return tt, w1) →
  resolveFilename bad (Some (parentModule self)) = Return path →
  matchNativeModuleId path = true →
  truthy unhook = true →
  registerAllowables self (pre ++ bad :: post) unhook w =
    (Throw (Error "Cannot unhook native modules" None), w1).
Proof.
  intros Hpre Hres Hnative Hunhook. unfold registerAllowables in *.
  apply (forEach_app_throw pre post bad _ w w1 w1); [exact Hpre|].
  unfold registerAllowable. run. rewrite Hres. simpl.
  by rewrite Hnative, Hunhook.
Qed.

(** X21.  When every module of the list resolves, and [unhook] is falsy
    or none of the keys is native, [registerAllowables] returns, every
    key the list resolves to holds a new entry [{unhook: !!unhook,
    paths: []}], and every other key of the registry is as before. *)
Theorem registerAllowables_registers_all (self : Mockery) (mods : list string)
    (unhook : JsVal) (w : World) :
  (∀ modRef, modRef ∈ mods →
     ∃ path, resolveFilename modRef (Some (parentModule self)) = Return path ∧
             (truthy unhook = false ∨ matchNativeModuleId path = false)) →
  let w' := (registerAllowables self mods unhook w).2 in
  (registerAllowables self mods unhook w).1 = Return tt ∧
  ∀ k, registeredAllowables w' !! k =
         if bool_decide (k ∈ resolvedPaths self mods)
         then Some {| allow_unhook := truthy unhook; allow_paths := [] |}
         else registeredAllowables w !! k.
Proof.
  unfold registerAllowables.
  revert w. induction mods as [|x mods IH]; intros w Hall.
  - split; [done|]. intros k. by rewrite bool_decide_eq_false_2 by apply not_elem_of_nil.
  - destruct (Hall x) as (p & Hp & Hok); [apply list_elem_of_here|].
    assert (Hx : registerAllowable self x unhook w =
              (Return tt,
               set_registeredAllowables
                 <[p := {| allow_unhook := truthy unhook; allow_paths := [] |}]>
                 w)).
    { unfold registerAllowable. run. rewrite Hp. simpl.
      assert (matchNativeModuleId p && truthy unhook = false) as ->; [|done].
      destruct Hok as [->| ->]; [by rewrite andb_false_r|done]. }
    assert (Hpaths : resolvedPaths self (x :: mods)
                     = p :: resolvedPaths self mods).
    { unfold resolvedPaths. simpl. by rewrite Hp. }
    rewrite Hpaths. cbn [forEach]. unfold mbind, M_bind. rewrite Hx.
    destruct (IH (set_registeredAllowables
                    <[p := {| allow_unhook := truthy unhook;
                              allow_paths := [] |}]> w))
      as [Hret Hlook].
    { intros m Hm. apply Hall. by apply list_elem_of_further. }
    split; [exact Hret|]. intros k. rewrite Hlook. simpl.
    destruct (decide (k ∈ resolvedPaths self mods)) as [Hin|Hnin].
    + rewrite !bool_decide_eq_true_2; [done| |done].
      by apply list_elem_of_further.
    + rewrite (bool_decide_eq_false_2 _ Hnin).
      destruct (decide (k = p)) as [->|Hne].
      * rewrite lookup_insert_eq, bool_decide_eq_true_2; [done|].
        apply list_elem_of_here.
      * rewrite lookup_insert_ne by done.
        rewrite bool_decide_eq_false_2; [done|].
        by intros [?|?]%elem_of_cons.
Qed.

(** ** Further properties of [deregisterAll] and [init] *)

Lemma lookup_evictAll (entries : list (string * Allowable)) (c : Dict)
    (k : string) :
  (Exists (λ entry, allow_unhook entry.2 = true ∧ k ∈ allow_paths entry.2)
     entries → evictAll entries c !! k = None) ∧
  (Forall (λ entry, allow_unhook entry.2 = true → k ∉ allow_paths entry.2)
     entries → evictAll entries c !! k = c !! k).
Proof.
  unfold evictAll. revert c.
  induction entries as [|entry entries IH]; intros c; simpl.
  - split; [by intros ?%Exists_nil|done].
  - set (c1 := if allow_unhook entry.2 then evict (allow_paths entry.2) c else c).
    destruct (IH c1) as [IHex IHall]. split.
    + intros [[Hu Hin]|Hex]%Exists_cons.
      * destruct (decide (Exists (λ e, allow_unhook e.2 = true
                                       ∧ k ∈ allow_paths e.2) entries))
          as [Hex|Hnex]; [by apply IHex|].
        rewrite (proj2 (IH c1)).
        -- subst c1. rewrite Hu, lookup_evict. by rewrite bool_decide_eq_true_2.
        -- apply Forall_forall. intros e He Hue Hke. apply Hnex.
           apply Exists_exists. by exists e.
      * by apply IHex.
    + intros [Hhd Htl]%Forall_cons. rewrite IHall by done. subst c1.
      destruct (allow_unhook entry.2) eqn:Hu; [|done].
      rewrite lookup_evict. by rewrite bool_decide_eq_false_2; [|apply Hhd].
Qed.

Lemma forEach_evictPaths_evictAll (entries : list (string * Allowable))
    (c : Dict) (w : World) :
  m_cache w = Some c →
  forEach entries (λ entry, evictPaths entry.2) w
    = (Return tt, set_m_cache (Some (evictAll entries c)) w).
Proof.
  unfold evictAll. revert c w.
  induction entries as [|entry entries IH]; intros c w Hc; simpl.
  - unfold mret, M_ret, set_m_cache. rewrite <- Hc. by rewrite world_eta.
  - unfold mbind, M_bind. unfold evictPaths at 1. unfold when.
    destruct (allow_unhook entry.2).
    + rewrite (forEach_deleteFromCache _ c) by done.
      by rewrite (IH (evict (allow_paths entry.2) c)).
    + unfold mret, M_ret. by rewrite (IH c).
Qed.

(** X22.  With a module cache in place, [deregisterAll] returns and
    empties the three registries.  From the module cache it deletes the
    keys listed in the [paths] of the allowables that have [unhook] set,
    and no other key.  It leaves the hook as it is: saved loader, saved
    cache, [m._load] and the options are untouched. *)
Theorem deregisterAll_clears_registries (self : Mockery) (w : World)
    (c : Dict) :
  m_cache w = Some c →
  let w' := (deregisterAll self w).2 in
  (deregisterAll self w).1 = Return tt ∧
  registeredMocks w' = ∅ ∧
  registeredSubstitutes w' = ∅ ∧
  registeredAllowables w' = ∅ ∧
  originalLoader w' = originalLoader w ∧
  originalCache w' = originalCache w ∧
  m_load w' = m_load w ∧
  options w' = options w ∧
  ∃ c', m_cache w' = Some c' ∧
    (∀ k key a, registeredAllowables w !! key = Some a →
                allow_unhook a = true → k ∈ allow_paths a → c' !! k = None) ∧
    (∀ k, (∀ key a, registeredAllowables w !! key = Some a →
                    allow_unhook a = true → k ∉ allow_paths a) →
          c' !! k = c !! k).
Proof.
  intros Hc w'.
  assert (Hrun : deregisterAll self w =
    (Return tt,
     set_registeredAllowables (λ _, ∅)
       (set_registeredSubstitutes (λ _, ∅)
          (set_registeredMocks (λ _, ∅)
             (set_m_cache
                (Some (evictAll (map_to_list (registeredAllowables w)) c))
                w))))).
  { unfold deregisterAll. unfold mbind, M_bind at 1. unfold gets at 1.
    unfold mbind, M_bind at 1.
    by rewrite (forEach_evictPaths_evictAll _ c). }
  subst w'. rewrite Hrun. simpl. repeat split.
  exists (evictAll (map_to_list (registeredAllowables w)) c).
  split; [done|]. split.
  - intros k key a Ha Hu Hin.
    apply (proj1 (lookup_evictAll _ c k)).
    apply Exists_exists. exists (key, a). split; [|done].
    by apply elem_of_map_to_list.
  - intros k Hk. apply (proj2 (lookup_evictAll _ c k)).
    apply Forall_forall. intros [key a] Hin%elem_of_map_to_list. simpl.
    by apply (Hk key a).
Qed.

(** X23.  Facades are kept by the [id] of the calling module.  The first
    [init] for an id makes a facade around that module; every later
    [init] for the same id returns that facade, also for another module
    object that carries the same id, whose registrations are then
    resolved relative to the first module.  A module with another, new id
    gets a facade of its own. *)
Theorem init_memoized_by_id (p1 p2 : ModuleObj) (w : World) :
  mockeryCache w !! mod_id p1 = None →
  ∃ w1, init p1 w = (Return (createInstance p1), w1) ∧
        init p1 w1 = (Return (createInstance p1), w1) ∧
        (mod_id p2 = mod_id p1 →
         init p2 w1 = (Return (createInstance p1), w1)) ∧
        (mod_id p2 ≠ mod_id p1 → mockeryCache w !! mod_id p2 = None →
         (init p2 w1).1 = Return (createInstance p2)).
Proof.
  intros Hnew.
  exists (set_mockeryCache <[mod_id p1 := createInstance p1]> w).
  split; [unfold init; run; by rewrite Hnew|].
  split; [unfold init; run; by rewrite lookup_insert_eq|].
  split.
  - intros Hid. unfold init. run. by rewrite Hid, lookup_insert_eq.
  - intros Hid Hnew2. unfold init. run.
    rewrite lookup_insert_ne by done. by rewrite Hnew2.
Qed.


(** ** Invariants of test runs *)

(** *** The registry of allowables stays tidy *)

Lemma allowablesTidy_deleteFromCache (p : string) :
  preserves allowablesTidy (deleteFromCache p).
Proof. intros w Hw. unfold deleteFromCache. by destruct (m_cache w). Qed.

Lemma allowablesTidy_delete (path : string) (w : World) :
  allowablesTidy w →
  allowablesTidy (set_registeredAllowables (delete path) w).
Proof.
  intros Hw k a. simpl. intros [_ Ha]%lookup_delete_Some. by apply Hw.
Qed.

Lemma allowablesTidy_clear (w : World) :
  allowablesTidy (set_registeredAllowables (λ _, ∅) w).
Proof. intros k a. simpl. by rewrite lookup_empty. Qed.

(** The bookkeeping of the hooked loader before it passes a load on,
    lines 117-128: a key is recorded only in an entry with [unhook] set,
    only under itself, and only when it is not there yet. *)
Lemma allowablesTidy_record {B} (path msg : string) (k : unit → M B) :
  (∀ u, preserves allowablesTidy (k u)) →
  preserves allowablesTidy
    (allows ← gets registeredAllowables;
     match allows !! path with
     | Some allow =>
         when (allow_unhook allow)
           (when (containsSlash path
                  && negb (bool_decide (path ∈ allow_paths allow)))
              (modify (set_registeredAllowables
                         (alter (pushPath path) path))))
     | None =>
         opts ← gets options;
         when (truthy (getProp opts "warnOnUnregistered")) (console_warn msg)
     end ≫= k).
Proof.
  intros Hk w Hw. unfold mbind, M_bind at 1. unfold gets at 1.
  unfold mbind, M_bind at 1.
  set (step := match registeredAllowables w !! path with
               | Some allow => _
               | None => _
               end).
  assert (Hstep : allowablesTidy (step w).2).
  { subst step.
    destruct (registeredAllowables w !! path) as [allow|] eqn:Hallow.
    - unfold when, modify.
      destruct (allow_unhook allow) eqn:Hu; simpl; [|done].
      destruct (containsSlash path); simpl; [|done].
      destruct (bool_decide (path ∈ allow_paths allow)) eqn:Hin; simpl; [done|].
      apply bool_decide_eq_false_1 in Hin.
      destruct (Hw path allow Hallow) as (Hpaths & _ & Hnat).
      assert (allow_paths allow = []) as Hnil.
      { destruct Hpaths as [?|Heq]; [done|]. rewrite Heq in Hin.
        destruct Hin. apply list_elem_of_here. }
      intros k' a. simpl. destruct (decide (path = k')) as [<-|Hne].
      + rewrite lookup_alter_eq, Hallow. simpl. intros [= <-]. simpl.
        rewrite Hnil, Hu.
        repeat split; [by right|done|by intros _; apply Hnat].
      + rewrite lookup_alter_ne by done. apply Hw.
    - run. by destruct (truthy _). }
  destruct (step w) as [[u|e] w1]; simpl in *; [by apply Hk|done].
Qed.

Ltac tidy_step :=
  first
    [ apply allowablesTidy_record; intros ?
    | apply preserves_ret | apply preserves_throw | apply preserves_gets
    | apply preserves_liftOutcome
    | apply allowablesTidy_deleteFromCache
    | apply preserves_when
    | apply preserves_forEach; intros ?
    | apply preserves_bind; [|intros ?]
    | apply preserves_modify; intros ? ?;
        first [ assumption | by apply allowablesTidy_delete
              | by apply allowablesTidy_clear ]
    | match goal with
      | |- preserves _ (match ?x with _ => _ end) => destruct x
      | |- preserves _ (if ?x then _ else _) => destruct x
      end ].

Ltac tidy := repeat tidy_step.

Lemma allowablesTidy_loads (fuel : nat) :
  (∀ request parent isMain,
     preserves allowablesTidy (hookedLoader fuel request parent isMain)) ∧
  (∀ fn request parent isMain,
     preserves allowablesTidy (callHost fuel fn request parent isMain)).
Proof.
  induction fuel as [|fuel [IHhooked IHhost]].
  - assert (Hmod : ∀ fn request parent isMain,
              preserves allowablesTidy
                (runModule stackOverflow fn request parent isMain)).
    { intros. apply preserves_runBody; [done|].
      intros. apply preserves_throw. }
    split; [|exact Hmod].
    intros request parent isMain. simpl.
    repeat (first [apply Hmod | tidy_step]).
  - assert (Hmod : ∀ fn request parent isMain,
              preserves allowablesTidy
                (runModule (requireWith (hookedLoader fuel) (callHost fuel))
                   fn request parent isMain)).
    { intros. apply preserves_runBody; [done|].
      intros. apply preserves_requireWith; [apply IHhooked|].
      intros. apply IHhost. }
    split; [|exact Hmod].
    intros request parent isMain. simpl.
    repeat (first [apply Hmod | apply IHhooked | tidy_step]).
Qed.

Lemma allowablesTidy_hookedLoader (fuel : nat) (request : string)
    (parent : Parent) (isMain : JsVal) :
  preserves allowablesTidy (hookedLoader fuel request parent isMain).
Proof. apply allowablesTidy_loads. Qed.

Lemma allowablesTidy_callHost (fuel : nat) (fn : nat) (request : string)
    (parent : Parent) (isMain : JsVal) :
  preserves allowablesTidy (callHost fuel fn request parent isMain).
Proof. apply allowablesTidy_loads. Qed.

Lemma allowablesTidy_registerAllowable (self : Mockery) (modRef : string)
    (unhook : JsVal) :
  preserves allowablesTidy (registerAllowable self modRef unhook).
Proof.
  intros w Hw. unfold registerAllowable. run.
  destruct (resolveFilename _ _) as [path|e]; simpl; [|done].
  destruct (matchNativeModuleId path) eqn:Hnat; simpl.
  - destruct (truthy unhook) eqn:Hu; simpl; [done|].
    intros k a. simpl. destruct (decide (path = k)) as [<-|Hne].
    + rewrite lookup_insert_eq. intros [= <-]. simpl. repeat split; [by left|done].
    + rewrite lookup_insert_ne by done. apply Hw.
  - intros k a. simpl. destruct (decide (path = k)) as [<-|Hne].
    + rewrite lookup_insert_eq. intros [= <-]. simpl. by repeat split; [left|..].
    + rewrite lookup_insert_ne by done. apply Hw.
Qed.

Lemma allowablesTidy_enable (self : Mockery) (opts : option Dict) :
  preserves allowablesTidy (enable self opts).
Proof.
  intros w Hw. unfold enable. run. destruct (originalLoader w); simpl; [done|].
  destruct (truthy _); simpl; [|done].
  by destruct (copyNativeModules _ _).
Qed.

Lemma allowablesTidy_disable (self : Mockery) :
  preserves allowablesTidy (disable self).
Proof.
  intros w Hw. unfold disable. run. destruct (originalLoader w); simpl; [|done].
  destruct (truthy _); simpl; [|done].
  by destruct (copyNativeModules _ _).
Qed.

Lemma allowablesTidy_runCall (fuel : nat) (c : Call) :
  preserves allowablesTidy (runCall fuel c).
Proof.
  destruct c; simpl.
  - apply preserves_bind; [|intros ?; apply preserves_ret].
    unfold moduleLoad. apply preserves_bind; [apply preserves_gets|].
    intros [fn|owner]; [apply allowablesTidy_callHost|].
    apply allowablesTidy_hookedLoader.
  - apply allowablesTidy_enable.
  - unfold resetCache. tidy.
  - unfold warnOnReplace. tidy.
  - unfold warnOnUnregistered. tidy.
  - unfold registerMock. tidy.
  - unfold deregisterMock. tidy.
  - unfold registerSubstitute. tidy.
  - unfold deregisterSubstitute. tidy.
  - apply allowablesTidy_registerAllowable.
  - unfold registerAllowables. apply preserves_forEach. intros ?.
    apply allowablesTidy_registerAllowable.
  - unfold deregisterAllowable, evictPaths. tidy.
  - unfold deregisterAllowables, deregisterAllowable, evictPaths. tidy.
  - unfold deregisterAll, evictPaths. tidy.
Qed.

Lemma allowablesTidy_runSteps (fuel : nat) (steps : list Step) (w : World) :
  allowablesTidy w → allowablesTidy (runSteps fuel steps w).
Proof.
  revert w. induction steps as [|s steps IH]; intros w Hw; simpl; [done|].
  apply IH. destruct s; simpl.
  - by apply allowablesTidy_runCall.
  - by apply allowablesTidy_disable.
Qed.

Lemma allowablesTidy_initialWorld (cache : option Dict) (load : LoadFn) :
  allowablesTidy (initialWorld cache load).
Proof. intros k a. simpl. by rewrite lookup_empty. Qed.

(** X24.  In every state a test run reaches from the initial one, each
    entry of the allowable registry has a [paths] list that is empty or
    holds the entry's own key once; the list is empty when [unhook] is
    unset; and no entry with [unhook] set sits under a native-module
    key. *)
Theorem reachable_allowables_tidy (fuel : nat) (steps : list Step)
    (cache : option Dict) (load : LoadFn) (key : string) (allow : Allowable) :
  registeredAllowables (runSteps fuel steps (initialWorld cache load)) !! key
    = Some allow →
  (allow_paths allow = [] ∨ allow_paths allow = [key]) ∧
  (allow_unhook allow = false → allow_paths allow = []) ∧
  (allow_unhook allow = true → matchNativeModuleId key = false).
Proof.
  apply allowablesTidy_runSteps, allowablesTidy_initialWorld.
Qed.

(** X25.  In every state a test run reaches, deregistering never takes a
    native module out of the module cache: [deregisterAllowable] leaves
    every key but the one it resolves untouched, native keys in
    particular, and [deregisterAll] leaves every native key untouched. *)
Theorem deregister_never_evicts_native (fuel : nat) (steps : list Step)
    (cache : option Dict) (load : LoadFn) (self : Mockery) (modRef : string)
    (path : string) (c : Dict) :
  let w := runSteps fuel steps (initialWorld cache load) in
  resolveFilename modRef (Some (parentModule self)) = Return path →
  m_cache w = Some c →
  (∃ c', m_cache (deregisterAllowable self modRef w).2 = Some c' ∧
         (∀ k, k ≠ path → c' !! k = c !! k) ∧
         (∀ k, matchNativeModuleId k = true → c' !! k = c !! k)) ∧
  (∃ c', m_cache (deregisterAll self w).2 = Some c' ∧
         (∀ k, matchNativeModuleId k = true → c' !! k = c !! k)).
Proof.
  intros w Hres Hc.
  assert (Htidy : allowablesTidy w)
    by apply allowablesTidy_runSteps, allowablesTidy_initialWorld.
  split.
  - unfold deregisterAllowable. run. rewrite Hres. simpl.
    destruct (registeredAllowables w !! path) as [a|] eqn:Ha; simpl.
    + destruct (Htidy path a Ha) as (Hpaths & _ & Hnat).
      unfold evictPaths, when. destruct (allow_unhook a) eqn:Hu.
      * unfold mbind, M_bind.
        rewrite (forEach_deleteFromCache _ c) by done. simpl.
        exists (evict (allow_paths a) c). split; [done|].
        assert (Hother : ∀ k, k ≠ path → evict (allow_paths a) c !! k = c !! k).
        { intros k Hk. rewrite lookup_evict.
          rewrite bool_decide_eq_false_2; [done|].
          destruct Hpaths as [-> | ->]; [apply not_elem_of_nil|].
          by intros ->%list_elem_of_singleton. }
        split; [exact Hother|]. intros k Hk. apply Hother.
        intros ->. rewrite Hnat in Hk; [done|done].
      * simpl. by exists c.
    + by exists c.
  - unfold deregisterAll. unfold mbind, M_bind at 1. unfold gets at 1.
    unfold mbind, M_bind at 1.
    rewrite (forEach_evictPaths_evictAll _ c) by done. simpl.
    eexists. split; [done|]. intros k Hk.
    apply (proj2 (lookup_evictAll _ c k)).
    apply Forall_forall. intros [key a] Hin%elem_of_map_to_list. simpl.
    intros Hu. destruct (Htidy key a Hin) as (Hpaths & _ & Hnat).
    destruct Hpaths as [-> | ->]; [apply not_elem_of_nil|].
    intros ->%list_elem_of_singleton. by rewrite (Hnat Hu) in Hk.
Qed.


(** *** The hook stays in one of its two states *)

Lemma hasCache_deleteFromCache (p : string) :
  preserves hasCache (deleteFromCache p).
Proof.
  intros w Hw. unfold deleteFromCache, hasCache in *.
  by destruct (m_cache w).
Qed.

Lemma hasCache_runBody (require : string → Parent → JsVal → M JsVal)
    (b : Body) :
  (∀ request parent isMain, preserves hasCache (require request parent isMain)) →
  cacheSafe b →
  preserves hasCache (runBody require b).
Proof.
  intros Hreq. induction b as [r|k IH|c k IH|request parent isMain k IH];
    intros Hsafe w Hw; simpl in *.
  - done.
  - by apply IH; [apply Hsafe|].
  - destruct Hsafe as [Hc Hk]. by apply IH.
  - specialize (Hreq request parent isMain w Hw).
    destruct (require request parent isMain w) as [r w']. by apply IH.
Qed.

Ltac cache_step :=
  first
    [ apply preserves_ret | apply preserves_throw | apply preserves_gets
    | apply preserves_liftOutcome
    | apply hasCache_deleteFromCache
    | apply preserves_when
    | apply preserves_forEach; intros ?
    | apply preserves_bind; [|intros ?]
    | apply preserves_modify; intros ? ?; first [ assumption | by eexists ]
    | match goal with
      | |- preserves _ (match ?x with _ => _ end) => destruct x
      | |- preserves _ (if ?x then _ else _) => destruct x
      end ].

Lemma hasCache_loads (fuel : nat) :
  hostKeepsCache →
  (∀ request parent isMain,
     preserves hasCache (hookedLoader fuel request parent isMain)) ∧
  (∀ fn request parent isMain,
     preserves hasCache (callHost fuel fn request parent isMain)).
Proof.
  intros Hhost. induction fuel as [|fuel [IHhooked IHhost]].
  - assert (Hmod : ∀ fn request parent isMain,
              preserves hasCache
                (runModule stackOverflow fn request parent isMain)).
    { intros. apply hasCache_runBody; [|apply Hhost].
      intros. apply preserves_throw. }
    split; [|exact Hmod].
    intros request parent isMain. simpl.
    repeat (first [apply Hmod | cache_step]).
  - assert (Hmod : ∀ fn request parent isMain,
              preserves hasCache
                (runModule (requireWith (hookedLoader fuel) (callHost fuel))
                   fn request parent isMain)).
    { intros. apply hasCache_runBody; [|apply Hhost].
      intros. apply preserves_requireWith; [apply IHhooked|].
      intros. apply IHhost. }
    split; [|exact Hmod].
    intros request parent isMain. simpl.
    repeat (first [apply Hmod | apply IHhooked | cache_step]).
Qed.

Lemma hasCache_hookedLoader (fuel : nat) (request : string) (parent : Parent)
    (isMain : JsVal) :
  hostKeepsCache → preserves hasCache (hookedLoader fuel request parent isMain).
Proof. intros Hhost. by apply hasCache_loads. Qed.

Lemma hasCache_callHost (fuel : nat) (fn : nat) (request : string)
    (parent : Parent) (isMain : JsVal) :
  hostKeepsCache → preserves hasCache (callHost fuel fn request parent isMain).
Proof. intros Hhost. by apply hasCache_loads. Qed.

Lemma hasCache_runCall (fuel : nat) (c : Call) :
  hostKeepsCache →
  (∀ self opts, c ≠ CEnable self opts) →
  preserves hasCache (runCall fuel c).
Proof.
  intros Hhost Hc. destruct c; simpl.
  - apply preserves_bind; [|intros ?; apply preserves_ret].
    unfold moduleLoad. apply preserves_bind; [apply preserves_gets|].
    intros [fn|owner]; [by apply hasCache_callHost|].
    by apply hasCache_hookedLoader.
  - by destruct (Hc self opts).
  - unfold resetCache. repeat cache_step.
  - unfold warnOnReplace. repeat cache_step.
  - unfold warnOnUnregistered. repeat cache_step.
  - unfold registerMock. repeat cache_step.
  - unfold deregisterMock. repeat cache_step.
  - unfold registerSubstitute. repeat cache_step.
  - unfold deregisterSubstitute. repeat cache_step.
  - unfold registerAllowable. repeat cache_step.
  - unfold registerAllowables, registerAllowable. repeat cache_step.
  - unfold deregisterAllowable, evictPaths. repeat cache_step.
  - unfold deregisterAllowables, deregisterAllowable, evictPaths.
    repeat cache_step.
  - unfold deregisterAll, evictPaths. repeat cache_step.
Qed.

Lemma hookTidy_sameHook (w w' : World) :
  sameHook w w' → hasCache w' → hookTidy w → hookTidy w'.
Proof.
  intros (Hl & Hc & Hm & Ho) Hcache [_ Hw]. split; [exact Hcache|].
  by rewrite Hl, Hc, Hm, Ho.
Qed.

Lemma hookTidy_enable (self : Mockery) (opts : option Dict) :
  preserves hookTidy (enable self opts).
Proof.
  intros w [[c Hc] Hw]. unfold enable. run.
  destruct (originalLoader w) as [l|] eqn:Hl; simpl.
  - split; [by exists c|]. by rewrite Hl.
  - destruct Hw as [[fn Hfn] Hsaved].
    destruct (truthy (getProp (getEffectiveOptions opts) "useCleanCache"))
      eqn:Ho; simpl.
    + destruct (copyNativeModules_fresh (m_cache w)) as [r ->]. simpl.
      unfold hookTidy. simpl. rewrite Hc, Hfn, Ho.
      split; [by exists r|].
      split; [by exists fn|]. split; [by exists self|]. by split.
    + unfold hookTidy. simpl. rewrite Hc, Hfn, Hsaved, Ho.
      split; [by exists c|].
      split; [by exists fn|]. split; [by exists self|].
      split; [by intros [? ?]|done].
Qed.

(** In either state of the hook [disable] returns, and the hook is
    unhooked afterwards. *)
Lemma hookTidy_disable (self : Mockery) (w : World) :
  hookTidy w →
  ∃ w', disable self w = (Return tt, w') ∧ hookTidy w' ∧
        originalLoader w' = None.
Proof.
  intros [[c Hc] Hw]. unfold disable. run.
  destruct (originalLoader w) as [l|] eqn:Hl; simpl.
  - destruct Hw as ([fn ->] & _ & Hiff).
    destruct (truthy (getProp (options w) "useCleanCache")) eqn:Ho; simpl.
    + destruct (proj2 Hiff eq_refl) as [c0 Hc0]. rewrite Hc0, Hc.
      destruct (copyNativeModules_Some c0 c) as (r & -> & _). simpl.
      eexists. split; [done|]. split; [|done].
      unfold hookTidy. simpl. split; [by exists r|].
      split; [by exists fn|done].
    + eexists. split; [done|]. split; [|done].
      unfold hookTidy. simpl. rewrite Hc. split; [by exists c|].
      split; [by exists fn|].
      destruct (originalCache w) as [c0|] eqn:Hc0; [|done].
      by pose proof (proj1 Hiff (mk_is_Some _ _ eq_refl)).
  - exists w. split; [done|]. split; [|done].
    unfold hookTidy. rewrite Hc, Hl. split; [by exists c|done].
Qed.

Lemma hookTidy_runStep (fuel : nat) (s : Step) :
  hostKeepsCache → preserves hookTidy (runStep fuel s).
Proof.
  intros Hhost w Hw. destruct s as [c|self]; simpl.
  - destruct c; try (apply (hookTidy_sameHook w);
                     [ apply runCall_keepsHook; intros ? ?; discriminate
                     | apply (hasCache_runCall _ _ Hhost);
                       [intros ? ?; discriminate|apply Hw]
                     | exact Hw ]).
    by apply hookTidy_enable.
  - destruct (hookTidy_disable self w Hw) as (w' & -> & Hw' & _). exact Hw'.
Qed.

Lemma hookTidy_runSteps (fuel : nat) (steps : list Step) (w : World) :
  hostKeepsCache → hookTidy w → hookTidy (runSteps fuel steps w).
Proof.
  intros Hhost. revert w.
  induction steps as [|s steps IH]; intros w Hw; simpl; [done|].
  apply IH. by apply hookTidy_runStep.
Qed.

(** X26.  Take a process with a module cache and a host loader in
    [m._load], and loaders that leave a cache in place.  In every state a
    test run reaches, the hook is in one of two states: unhooked, with a
    host loader in [m._load] and no cache saved; or hooked, with a host
    loader saved, a hooked loader in [m._load] and a cache saved exactly
    when [useCleanCache] is in effect.  In every such state [disable]
    returns and leaves the loader unhooked with a host loader in
    [m._load], and [deregisterAll] returns. *)
Theorem reachable_hook_tidy (fuel : nat) (steps : list Step) (c0 : Dict)
    (fn : nat) (self : Mockery) :
  hostKeepsCache →
  let w := runSteps fuel steps (initialWorld (Some c0) (HostFn fn)) in
  hookTidy w ∧
  (∃ w' fn', disable self w = (Return tt, w') ∧
             originalLoader w' = None ∧ m_load w' = HostFn fn') ∧
  (deregisterAll self w).1 = Return tt.
Proof.
  intros Hhost w.
  assert (Hw : hookTidy w).
  { apply hookTidy_runSteps; [exact Hhost|].
    split; [by exists c0|]. simpl. split; [by exists fn|done]. }
  split; [exact Hw|]. split.
  - destruct (hookTidy_disable self w Hw) as (w' & Hdis & [_ Hw'] & Hun).
    rewrite Hun in Hw'. destruct Hw' as [[fn' Hfn'] _].
    by exists w', fn'.
  - destruct Hw as [Hc _].
    destruct (deregisterAll_clears self w Hc) as [c' ->]. done.
Qed.

End Mockery.

(** ** The theorems at work on the fixtures *)

Lemma hookedLoader_returns_mock_witness :
  hookedLoader demoResolve demoHost 0 "widgets" (Some testModule) (VBool false)
    mockWorld = (Return (VObj 7), mockWorld) ∧
  trace (hookedLoader demoResolve demoHost 0 "widgets" (Some testModule)
           (VBool false) mockWorld).2 = [].
Proof.
  apply (hookedLoader_returns_mock demoResolve demoHost 0 "widgets"
           (Some testModule) (VBool false) mockWorld (HostFn 0)
           "/app/node_modules/widgets" (VObj 7)); reflexivity.
Defined.

Lemma hookedLoader_null_substitute_witness :
  hookedLoader demoResolve demoHost 0 "gone" (Some otherModule) (VBool false)
    substWorld =
  (Throw (Error "Cannot find module 'gone'" (Some "MODULE_NOT_FOUND")),
   substWorld).
Proof.
  apply (hookedLoader_null_substitute demoResolve demoHost 0 "gone"
           (Some otherModule) (VBool false) substWorld (HostFn 0)
           "/app/node_modules/gone"
           {| subst_name := None; subst_parent := testModule;
              subst_module := None |}); reflexivity.
Defined.

(** ["gadgets"] is redirected to ["app"], a module with dependencies:
    the load returns what the original loader returns for ["app"], the
    loads nested in it go through the hook (the mock of ["widgets"] is
    served, ["left-pad"] is warned about and loaded), and the result is
    stored in the entry. *)
Lemma hookedLoader_substitute_delegates_witness :
  let load := hookedLoader demoResolve appHost 1 "gadgets" (Some otherModule)
                (VBool false) appWorld in
  load.1 = Return (VObj 7) ∧
  registeredSubstitutes load.2 !! "/app/node_modules/gadgets" =
    Some {| subst_name := Some "app"; subst_parent := testModule;
            subst_module := Some (VObj 7) |} ∧
  trace load.2 =
    [OriginalLoaderCall (HostFn 0) "app" (Some testModule) (VBool false);
     ConsoleWarn "WARNING: loading non-allowed module: left-pad";
     OriginalLoaderCall (HostFn 0) "left-pad" (Some appModule) (VBool false)].
Proof.
  intros load.
  pose proof (hookedLoader_substitute_delegates demoResolve appHost 1
                "gadgets" (Some otherModule) (VBool false) appWorld 0
                "/app/node_modules/gadgets"
                {| subst_name := Some "app";
                   subst_parent := testModule;
                   subst_module := None |}
                "app" eq_refl eq_refl eq_refl eq_refl eq_refl)
    as (Hres & _ & _ & _ & _ & _ & Hstored & _).
  split; [exact Hres|].
  split; [exact (proj2 (Hstored (VObj 7) eq_refl))|].
  vm_compute. reflexivity.
Defined.

(** The second load of a substituted module calls the original loader
    again, although the first result was stored in the entry.  With a
    loader that caches as Node's does, the second call returns the cached
    instance, but it is made: the trace has two calls.  With a loader
    that yields a new object on every call, the second load returns
    another instance than the first. *)
Lemma substitute_second_load_calls_loader_again :
  let call := OriginalLoaderCall (HostFn 0) "fake-widgets" (Some testModule)
                (VBool false) in
  let load := hookedLoader demoResolve demoHost 0 "widgets" (Some otherModule)
                (VBool false) in
  let first := load substWorld in
  let second := load first.2 in
  let load' := hookedLoader demoResolve freshHost 0 "widgets" (Some otherModule)
                 (VBool false) in
  let first' := load' substWorld in
  let second' := load' first'.2 in
  (subst_module <$> registeredSubstitutes first.2 !! "/app/node_modules/widgets"
     = Some (Some (VObj 3)) ∧
   trace first.2 = [call] ∧
   trace second.2 = [call; call] ∧
   trace second.2 ≠ trace first.2) ∧
  (first'.1 = Return (VObj 1) ∧
   subst_module <$> registeredSubstitutes first'.2 !! "/app/node_modules/widgets"
     = Some (Some (VObj 1)) ∧
   second'.1 = Return (VObj 2) ∧
   trace second'.2 = [call; call] ∧
   second'.1 ≠ first'.1).
Proof.
  vm_compute. repeat split; discriminate.
Qed.

Lemma registerSubstitute_checks_type_witness :
  registerSubstitute demoResolve facadeA "missing" (VNum 42) hookedWorld =
    (Throw (Error "Substitute must be a string or null" None), hookedWorld) ∧
  registeredSubstitutes
    (registerSubstitute demoResolve facadeA "widgets" (VStr "fake-widgets")
       hookedWorld).2 !! "/app/node_modules/widgets" =
    Some {| subst_name := Some "fake-widgets"; subst_parent := testModule;
            subst_module := None |} ∧
  registeredSubstitutes
    (registerSubstitute demoResolve facadeA "gone" VNull hookedWorld).2
    !! "/app/node_modules/gone" =
    Some {| subst_name := None; subst_parent := testModule;
            subst_module := None |}.
Proof.
  split; [|split].
  - apply (registerSubstitute_checks_type demoResolve facadeA "missing"
             (VNum 42) hookedWorld); discriminate.
  - rewrite (proj2 (registerSubstitute_checks_type demoResolve facadeA
                      "widgets" (VStr "fake-widgets") hookedWorld)
               "/app/node_modules/widgets" (Some "fake-widgets")
               (or_intror (ex_intro _ "fake-widgets" (conj eq_refl eq_refl)))
               eq_refl).
    reflexivity.
  - rewrite (proj2 (registerSubstitute_checks_type demoResolve facadeA
                      "gone" VNull hookedWorld)
               "/app/node_modules/gone" None
               (or_introl (conj eq_refl eq_refl)) eq_refl).
    reflexivity.
Defined.

Lemma registerAllowable_rejects_native_unhook_witness :
  registerAllowable demoResolve facadeA "binding.node" (VBool true) hookedWorld =
    (Throw (Error "Cannot unhook native modules" None), hookedWorld) ∧
  registerAllowable demoResolve facadeA "binding.node" (VBool false) hookedWorld =
    (Return tt,
     set_registeredAllowables
       <["/app/node_modules/binding.node" :=
           {| allow_unhook := false; allow_paths := [] |}]> hookedWorld).
Proof.
  pose proof (registerAllowable_rejects_native_unhook demoResolve facadeA
                "binding.node" (VBool true) hookedWorld
                "/app/node_modules/binding.node" eq_refl) as [Hthrow _].
  pose proof (registerAllowable_rejects_native_unhook demoResolve facadeA
                "binding.node" (VBool false) hookedWorld
                "/app/node_modules/binding.node" eq_refl) as [_ Hok].
  split.
  - apply Hthrow; reflexivity.
  - apply Hok. left. reflexivity.
Defined.

Lemma deregisterAllowable_evicts_observed_paths_witness :
  (m_cache (deregisterAllowable demoResolve facadeB "left-pad" allowWorld).2
     ≫= (.!! "/app/node_modules/left-pad")) = None ∧
  registeredAllowables
    (deregisterAllowable demoResolve facadeB "left-pad" allowWorld).2
    !! "/app/node_modules/left-pad" = None ∧
  deregisterAllowable demoResolve facadeB "right-pad" allowWorld =
    (Return tt,
     set_registeredAllowables (delete "/app/node_modules/right-pad") allowWorld) ∧
  deregisterAllowable demoResolve facadeB "widgets" allowWorld =
    (Return tt, allowWorld).
Proof.
  pose proof (deregisterAllowable_evicts_observed_paths demoResolve facadeB
                "left-pad" allowWorld "/app/node_modules/left-pad" eq_refl)
    as (Hunhook & _ & _).
  pose proof (deregisterAllowable_evicts_observed_paths demoResolve facadeB
                "right-pad" allowWorld "/app/node_modules/right-pad" eq_refl)
    as (_ & Hkeep & _).
  pose proof (deregisterAllowable_evicts_observed_paths demoResolve facadeB
                "widgets" allowWorld "/app/node_modules/widgets" eq_refl)
    as (_ & _ & Hnone).
  destruct (Hunhook _ _ eq_refl eq_refl eq_refl) as [Hrun _].
  rewrite Hrun.
  split; [reflexivity|]. split; [reflexivity|]. split.
  - apply (Hkeep _ eq_refl eq_refl).
  - apply Hnone. reflexivity.
Defined.

Lemma clean_cache_round_trip_witness :
  let w1 := (enable facadeA (Some {[ "useCleanCache" := VBool true ]})
               unhookedWorld).2 in
  let w2 := runScript demoResolve demoHost 0 demoScript w1 in
  let w3 := (disable facadeB w2).2 in
  m_load w3 = HostFn 0 ∧
  originalLoader w3 = None ∧
  originalCache w3 = None ∧
  ∃ c3, m_cache w3 = Some c3 ∧
        c3 !! "/app/lib/util.js" = Some (VObj 101) ∧
        c3 !! "/app/node_modules/left-pad" = None ∧
        c3 !! "/app/node_modules/binding.node" = Some (VObj 100) ∧
        c3 !! "/app/node_modules/other.node" = Some (VObj 1).
Proof.
  intros w1 w2 w3.
  pose proof (clean_cache_round_trip demoResolve demoHost 0 facadeA facadeB
                {[ "useCleanCache" := VBool true ]} demoScript unhookedWorld
                demoCache eq_refl eq_refl eq_refl)
    as (_ & Hload & Hhook & Hsaved & c3 & Hc3 & Hlook).
  split; [exact Hload|]. split; [exact Hhook|]. split; [exact Hsaved|].
  exists c3. split; [exact Hc3|].
  rewrite !Hlook. vm_compute. repeat split.
Defined.

Lemma facades_share_registries_witness :
  let wb := (init otherModule (init testModule unhookedWorld).2).2 in
  let w1 := (registerMock demoResolve facadeA "widgets" (VObj 7) wb).2 in
  let w2 := (enable facadeB None w1).2 in
  hookedLoader demoResolve demoHost 0 "/app/node_modules/widgets"
    (Some otherModule) (VBool false) w2 = (Return (VObj 7), w2) ∧
  registeredMocks (deregisterAll facadeB w2).2 = ∅.
Proof.
  intros wb w1 w2.
  pose proof (facades_share_registries demoResolve demoHost 0 testModule
                otherModule facadeA facadeB
                (init testModule unhookedWorld).2 wb unhookedWorld
                "widgets" "/app/node_modules/widgets" (Some otherModule)
                (VBool false) (VObj 7) None None "/app/node_modules/widgets"
                eq_refl eq_refl eq_refl eq_refl (mk_is_Some _ _ eq_refl))
    as (_ & _ & Hload & _ & Hmocks & _).
  split; [exact Hload|exact Hmocks].
Defined.

Lemma no_replace_warning_before_enable_witness :
  trace (registerMock demoResolve facadeA "widgets" (VObj 8) registeredWorld).2
    = [] ∧
  trace (registerSubstitute demoResolve facadeA "widgets" (VStr "fake-widgets")
           registeredWorld).2 = [].
Proof.
  pose proof (no_replace_warning_before_enable demoResolve facadeA "widgets"
                (VObj 8) (VStr "fake-widgets") "/app/node_modules/widgets"
                registeredWorld eq_refl eq_refl eq_refl)
    as (_ & Hmock & Hsubst & _).
  rewrite Hmock, Hsubst by (right; by exists "fake-widgets").
  split; reflexivity.
Defined.

(** ** The further properties at work on the fixtures *)

Lemma matchNativeModuleId_iff_suffix_witness :
  matchNativeModuleId "/app/node_modules/binding.node" = true ∧
  ∃ p, "/app/node_modules/binding.node" = p ++ ".node".
Proof.
  split.
  - apply (proj2 (matchNativeModuleId_iff_suffix _)).
    by exists "/app/node_modules/binding".
  - apply (proj1 (matchNativeModuleId_iff_suffix _)). reflexivity.
Defined.

Lemma hookedLoader_resolution_failure_witness :
  hookedLoader demoResolve demoHost 0 "missing" (Some testModule) (VBool false)
    mockWorld
  = (Throw (createModuleNotFoundError "missing"), mockWorld).
Proof.
  apply (hookedLoader_resolution_failure demoResolve demoHost 0 "missing"
           (Some testModule) (VBool false) mockWorld (HostFn 0));
    reflexivity.
Defined.



Lemma hookedLoader_substitute_loader_throws_witness :
  hookedLoader demoResolve brokenHost 0 "widgets" (Some otherModule)
    (VBool false) substWorld
  = (Throw (HostThrown (VStr "SyntaxError")),
     emit (OriginalLoaderCall (HostFn 0) "fake-widgets" (Some testModule)
             (VBool false)) substWorld).
Proof.
  apply (hookedLoader_substitute_loader_throws demoResolve brokenHost 0
           "widgets" (Some otherModule) (VBool false) substWorld _ 0
           "/app/node_modules/widgets"
           {| subst_name := Some "fake-widgets"; subst_parent := testModule;
              subst_module := None |}
           "fake-widgets"); reflexivity.
Defined.

Lemma enable_isolates_cache_witness :
  let w1 := (enable facadeA (Some {[ "useCleanCache" := VBool true ]})
               unhookedWorld).2 in
  originalCache w1 = Some demoCache ∧
  ∃ fresh, m_cache w1 = Some fresh ∧
           fresh !! "/app/node_modules/binding.node" = Some (VObj 100) ∧
           fresh !! "/app/lib/util.js" = None.
Proof.
  intros w1.
  pose proof (enable_isolates_cache facadeA {[ "useCleanCache" := VBool true ]}
                unhookedWorld demoCache eq_refl eq_refl eq_refl)
    as (Hsaved & (fresh & Hfresh & Hlook) & _).
  split; [exact Hsaved|]. exists fresh. split; [exact Hfresh|].
  rewrite !Hlook. split; reflexivity.
Defined.

Lemma enable_disable_round_trip_witness :
  (enable facadeA None;; disable facadeB) registeredWorld =
    (Return tt, set_options (λ _, getEffectiveOptions None) registeredWorld).
Proof.
  apply (enable_disable_round_trip facadeA facadeB None registeredWorld);
    reflexivity.
Defined.

Lemma disable_twice_is_disable_once_witness :
  (disable facadeA;; disable facadeB) unhookedWorld = (Return tt, unhookedWorld).
Proof.
  destruct (disable_twice_is_disable_once facadeA facadeB unhookedWorld)
    as [Htwice Hnoop].
  rewrite Htwice. apply Hnoop. reflexivity.
Defined.


Lemma hookedLoader_after_disable_witness :
  hookedLoader demoResolve demoHost 0 "widgets" (Some testModule) (VBool false)
    (disable facadeA mockWorld).2
  = (Throw (Error "Loader has not been hooked" None),
     (disable facadeA mockWorld).2).
Proof.
  apply (hookedLoader_after_disable demoResolve demoHost 0 facadeA mockWorld).
  reflexivity.
Defined.


Lemma resetCache_then_disable_witness :
  m_cache (resetCache facadeA cleanWorld).2 = Some ∅ ∧
  m_cache ((resetCache facadeA;; disable facadeB) cleanWorld).2 = Some demoCache ∧
  resetCache facadeA hookedWorld = (Return tt, hookedWorld).
Proof.
  destruct (resetCache_then_disable facadeA facadeB cleanWorld) as [Hclean _].
  destruct (Hclean (HostFn 0) demoCache eq_refl eq_refl eq_refl)
    as [Hreset Hboth].
  destruct (resetCache_then_disable facadeA facadeB hookedWorld) as [_ Hnoop].
  rewrite Hreset, Hboth. split; [reflexivity|]. split; [reflexivity|].
  apply Hnoop. left. reflexivity.
Defined.

(** With the flag off, the load of ["app"] writes no warning for ["app"];
    the flag being off, neither does the load of ["left-pad"] nested in
    it. *)
Lemma warn_flags_take_effect_immediately_witness :
  trace ((warnOnReplace facadeA (VBool false);;
          registerMock demoResolve facadeB "widgets" (VObj 8)) mockWorld).2 = [] ∧
  ∃ rest,
    trace ((warnOnUnregistered facadeA (VBool false);;
            ignore (hookedLoader demoResolve appHost 1 "app"
                      (Some testModule) (VBool false))) mockWorld).2 =
      OriginalLoaderCall (HostFn 0) "app" (Some testModule) (VBool false)
      :: rest ∧
    rest = [OriginalLoaderCall (HostFn 0) "left-pad" (Some appModule)
              (VBool false)].
Proof.
  destruct (warn_flags_take_effect_immediately demoResolve appHost 1 facadeA
              facadeB (VBool false) "widgets" (VObj 8) (VObj 7)
              "/app/node_modules/widgets" "app" (Some testModule)
              (VBool false) 0 "/app/node_modules/app" mockWorld
              eq_refl eq_refl eq_refl eq_refl eq_refl eq_refl eq_refl)
    as [Hreplace [rest Hrest]].
  split; [exact Hreplace|]. exists rest. split; [exact Hrest|].
  vm_compute in Hrest. by injection Hrest as <-.
Defined.

Lemma enable_discards_earlier_flags_witness :
  getProp
    (options ((warnOnReplace facadeA (VBool false);;
               warnOnUnregistered facadeA (VBool false);;
               enable facadeB None) unhookedWorld).2) "warnOnReplace"
  = VBool true.
Proof.
  rewrite (enable_discards_earlier_flags facadeA facadeB (VBool false)
             (VBool false) None unhookedWorld eq_refl).
  reflexivity.
Defined.

Lemma registerMock_deregisterMock_round_trip_witness :
  (registerMock demoResolve facadeA "widgets" (VObj 7);;
   deregisterMock demoResolve facadeB "/app/node_modules/widgets") unhookedWorld
  = (Return tt, unhookedWorld).
Proof.
  apply (registerMock_deregisterMock_round_trip demoResolve facadeA facadeB
           "widgets" "/app/node_modules/widgets" (VObj 7)
           "/app/node_modules/widgets" unhookedWorld eq_refl eq_refl eq_refl).
Defined.

Lemma registerSubstitute_deregisterSubstitute_round_trip_witness :
  (registerSubstitute demoResolve facadeA "widgets" (VStr "fake-widgets");;
   deregisterSubstitute demoResolve facadeB "/app/node_modules/widgets")
    unhookedWorld
  = (Return tt, unhookedWorld).
Proof.
  apply (registerSubstitute_deregisterSubstitute_round_trip demoResolve
           facadeA facadeB "widgets" "/app/node_modules/widgets"
           (VStr "fake-widgets") "/app/node_modules/widgets" unhookedWorld
           eq_refl eq_refl eq_refl eq_refl).
Defined.

Lemma registerAllowable_deregisterAllowable_round_trip_witness :
  (registerAllowable demoResolve facadeA "left-pad" (VBool true);;
   deregisterAllowable demoResolve facadeB "/app/node_modules/left-pad")
    hookedWorld
  = (Return tt, hookedWorld).
Proof.
  apply (registerAllowable_deregisterAllowable_round_trip demoResolve
           facadeA facadeB "left-pad" "/app/node_modules/left-pad"
           (VBool true) "/app/node_modules/left-pad" hookedWorld
           eq_refl eq_refl eq_refl (or_intror eq_refl)).
Defined.

Lemma registration_resolution_failure_witness :
  registerMock demoResolve facadeA "missing" (VObj 7) hookedWorld
    = (Throw (createModuleNotFoundError "missing"), hookedWorld) ∧
  registerSubstitute demoResolve facadeA "missing" (VStr "fake") hookedWorld
    = (Throw (createModuleNotFoundError "missing"), hookedWorld) ∧
  registerAllowable demoResolve facadeA "missing" (VBool false) hookedWorld
    = (Throw (createModuleNotFoundError "missing"), hookedWorld).
Proof.
  pose proof (registration_resolution_failure demoResolve facadeA "missing"
                (VObj 7) (VStr "fake") (VBool false)
                (createModuleNotFoundError "missing") hookedWorld eq_refl)
    as (Hmock & _ & Hsubst & _ & Hallow & _).
  split; [exact Hmock|]. split; [exact Hsubst|exact Hallow].
Defined.

Lemma registerAllowables_fail_fast_witness :
  registerAllowables demoResolve facadeA
    ["left-pad"; "binding.node"; "right-pad"] (VBool true) hookedWorld
  = (Throw (Error "Cannot unhook native modules" None),
     set_registeredAllowables
       <["/app/node_modules/left-pad" :=
           {| allow_unhook := true; allow_paths := [] |}]> hookedWorld).
Proof.
  apply (registerAllowables_fail_fast demoResolve facadeA ["left-pad"]
           ["right-pad"] "binding.node" (VBool true)
           "/app/node_modules/binding.node" hookedWorld);
    reflexivity.
Defined.

Lemma registerAllowables_registers_all_witness :
  let w' := (registerAllowables demoResolve facadeA
               ["left-pad"; "right-pad"; "left-pad"] (VBool false)
               allowWorld).2 in
  registeredAllowables w' !! "/app/node_modules/left-pad"
    = Some {| allow_unhook := false; allow_paths := [] |} ∧
  registeredAllowables w' !! "/app/node_modules/widgets" = None.
Proof.
  intros w'.
  assert (Hall : ∀ modRef, modRef ∈ ["left-pad"; "right-pad"; "left-pad"] →
            ∃ path, demoResolve modRef (Some (parentModule facadeA))
                    = Return path ∧
                    (truthy (VBool false) = false
                     ∨ matchNativeModuleId path = false)).
  { intros modRef Hin. apply list_elem_of_In in Hin. simpl in Hin.
    destruct Hin as [<-|[<-|[<-|[]]]]; eexists; (split; [reflexivity|by left]). }
  pose proof (registerAllowables_registers_all demoResolve facadeA
                ["left-pad"; "right-pad"; "left-pad"] (VBool false)
                allowWorld Hall) as [_ Hlook].
  subst w'. rewrite !Hlook. split; reflexivity.
Defined.

Lemma deregisterAll_clears_registries_witness :
  let w' := (deregisterAll facadeB allowWorld).2 in
  registeredAllowables w' = ∅ ∧
  originalLoader w' = Some (HostFn 0) ∧
  ∃ c', m_cache w' = Some c' ∧
        c' !! "/app/node_modules/left-pad" = None ∧
        c' !! "/app/node_modules/right-pad" = Some (VObj 104).
Proof.
  intros w'.
  pose proof (deregisterAll_clears_registries facadeB allowWorld _ eq_refl)
    as (_ & _ & _ & Hallow & Hhook & _ & _ & _ & c' & Hc' & Hgone & Hkept).
  split; [exact Hallow|]. split; [exact Hhook|].
  exists c'. split; [exact Hc'|]. split.
  - apply (Hgone _ "/app/node_modules/left-pad"
             {| allow_unhook := true;
                allow_paths := ["/app/node_modules/left-pad"] |});
      [reflexivity|reflexivity|apply list_elem_of_here].
  - rewrite Hkept; [reflexivity|].
    intros key a Ha Hu Hin.
    destruct (decide (key = "/app/node_modules/left-pad")) as [->|Hne].
    + vm_compute in Ha. injection Ha as <-. simpl in Hin.
      apply list_elem_of_singleton in Hin. discriminate.
    + destruct (decide (key = "/app/node_modules/right-pad")) as [->|Hne'].
      * vm_compute in Ha. injection Ha as <-. discriminate.
      * unfold allowWorld in Ha. simpl in Ha.
        rewrite lookup_insert_ne in Ha by done.
        by rewrite lookup_singleton_ne in Ha.
Defined.

Lemma init_memoized_by_id_witness :
  ∃ w1, init testModule unhookedWorld = (Return facadeA, w1) ∧
        init twinModule w1 = (Return facadeA, w1) ∧
        (init otherModule w1).1 = Return facadeB.
Proof.
  destruct (init_memoized_by_id testModule twinModule unhookedWorld eq_refl)
    as (w1 & Hfirst & _ & Htwin & _).
  destruct (init_memoized_by_id testModule otherModule unhookedWorld eq_refl)
    as (w1' & Hfirst' & _ & _ & Hother).
  assert (w1' = w1) as -> by congruence.
  exists w1. split; [exact Hfirst|]. split; [by apply Htwin|].
  apply Hother; [discriminate|reflexivity].
Defined.


Lemma reachable_allowables_tidy_witness :
  registeredAllowables
    (runSteps demoResolve demoHost 0 demoSteps
       (initialWorld (Some demoCache) (HostFn 0)))
    !! "/app/node_modules/left-pad"
  = Some {| allow_unhook := true;
            allow_paths := ["/app/node_modules/left-pad"] |} ∧
  matchNativeModuleId "/app/node_modules/left-pad" = false.
Proof.
  assert (Hentry :
    registeredAllowables
      (runSteps demoResolve demoHost 0 demoSteps
         (initialWorld (Some demoCache) (HostFn 0)))
      !! "/app/node_modules/left-pad"
    = Some {| allow_unhook := true;
              allow_paths := ["/app/node_modules/left-pad"] |})
    by (vm_compute; reflexivity).
  split; [exact Hentry|].
  pose proof (reachable_allowables_tidy demoResolve demoHost 0 demoSteps
                (Some demoCache) (HostFn 0) _ _ Hentry) as (_ & _ & Hnat).
  apply Hnat. reflexivity.
Defined.

Lemma deregister_never_evicts_native_witness :
  let w := runSteps demoResolve demoHost 0 demoSteps
             (initialWorld (Some demoCache) (HostFn 0)) in
  (m_cache (deregisterAllowable demoResolve facadeA "left-pad" w).2
     ≫= (.!! "/app/node_modules/addon.node")) = Some (VObj 2) ∧
  (m_cache (deregisterAll facadeA w).2
     ≫= (.!! "/app/node_modules/addon.node")) = Some (VObj 2).
Proof.
  intros w.
  assert (Hc : m_cache w = Some (default ∅ (m_cache w)))
    by (vm_compute; reflexivity).
  pose proof (deregister_never_evicts_native demoResolve demoHost 0 demoSteps
                (Some demoCache) (HostFn 0) facadeA "left-pad"
                "/app/node_modules/left-pad" _ eq_refl Hc)
    as [(c1 & Hc1 & _ & Hnat1) (c2 & Hc2 & Hnat2)].
  fold w in Hc1, Hc2. rewrite Hc1, Hc2. simpl.
  rewrite Hnat1, Hnat2 by reflexivity.
  split; vm_compute; reflexivity.
Defined.

Lemma demoHost_keeps_cache : hostKeepsCache demoHost.
Proof.
  intros fn request parent isMain w [c Hc]. unfold demoHost. rewrite Hc.
  destruct (demoResolve request parent); [|done].
  by destruct (c !! _).
Defined.

Lemma reachable_hook_tidy_witness :
  let w := runSteps demoResolve demoHost 0 demoSteps
             (initialWorld (Some demoCache) (HostFn 0)) in
  hookTidy w ∧
  ∃ w' fn', disable facadeA w = (Return tt, w') ∧
            originalLoader w' = None ∧ m_load w' = HostFn fn'.
Proof.
  intros w.
  pose proof (reachable_hook_tidy demoResolve demoHost 0 demoSteps demoCache 0
                facadeA demoHost_keeps_cache) as (Htidy & Hdis & _).
  split; [exact Htidy|exact Hdis].
Defined.
